(** * ReasonLoop: the reasoning-session synchronization engine

    A shallow embedding of the client-side session engine of ReasonLoop:

    - [frontend/src/stores/reasoningStore.ts]: the zustand store holding the
      session state, its actions and the role rotation helper;
    - [hooks/useWebSocket.ts] ([useReasoningWebSocket]): the connection
      manager, its socket handlers and the session-switch effect;
    - [components/ModelTriad.tsx]: the role shown for each model slot.

    JavaScript numbers that are only stored and compared (scores,
    temperature) are binary64 floats, as in the source.  Numbers used as
    array indices or counters (iteration numbers, the reconnection counter,
    delays) are integers and are modelled in [Z]; where the source adds to
    an iteration number, the sum is rounded as binary64 rounds it
    ([js_succ]). *)

From Stdlib Require Import ZArith Bool List String Floats.PrimFloat Lia.
From Stdlib Require FloatOps Uint63.
From stdpp Require Import base list strings pretty.

Open Scope string_scope.
Open Scope list_scope.
Open Scope Z_scope.

(** ** JavaScript arrays

    [iterations] is a JavaScript array that the store writes at arbitrary
    numeric keys.  A key that is an array index (an integer in
    [0, 2^32 - 2]) addresses an element; writing past the end extends the
    array with holes.  Any other key (a negative number, for instance the
    council iteration [-1]) is an ordinary property of the array object: it
    does not count in [length] and it is not copied by the spread
    [[...array]], which iterates over the elements only. *)

Module JsArray.

Record t (A : Type) : Type := mk {
  elems : list (option A);   (* [None] is a hole / [undefined] *)
  props : list (Z * A);      (* properties under non-index keys *)
}.
Arguments mk {A} _ _.
Arguments elems {A} _.
Arguments props {A} _.

Section Ops.
Context {A : Type}.

Definition empty : t A := mk [] [].

Definition is_index (k : Z) : bool := (0 <=? k) && (k <? 4294967295).

Fixpoint assoc (k : Z) (ps : list (Z * A)) : option A :=
  match ps with
  | [] => None
  | (k', x) :: ps' => if k' =? k then Some x else assoc k ps'
  end.

(** [a[k]]: [None] stands for [undefined]. *)
Definition get (a : t A) (k : Z) : option A :=
  if is_index k then
    match elems a !! Z.to_nat k with
    | Some (Some x) => Some x
    | _ => None
    end
  else assoc k (props a).

(** Writing element [n] of the element list, extending it with holes
    when [n] is past the end. *)
Definition write (n : nat) (x : A) (l : list (option A)) : list (option A) :=
  if (n <? length l)%nat then <[n := Some x]> l
  else l ++ replicate (n - length l)%nat None ++ [Some x].

(** [a[k] = x]. *)
Definition set (a : t A) (k : Z) (x : A) : t A :=
  if is_index k then mk (write (Z.to_nat k) x (elems a)) (props a)
  else mk (elems a)
          ((k, x) :: List.filter (fun p => negb (fst p =? k)) (props a)).

(** [[...a]]: a fresh array with the elements of [a]. *)
Definition spread (a : t A) : t A := mk (elems a) [].

(** [a.length]. *)
Definition length (a : t A) : Z := Z.of_nat (List.length (elems a)).

End Ops.

End JsArray.

(** ** Data model ([reasoningStore.ts]) *)

Record CritiqueResult : Type := {
  strengths : list string;
  weaknesses : list string;
  suggestions : list string;
  score : float;
  raw_critique : string;
}.

(** [generation_model] and [critique_model] are declared [string] but hold
    whatever [models[idx]] evaluates to, which is [undefined] ([None]) when
    the index is not in [0..2]. *)
Record Iteration : Type := {
  number : Z;
  generation : string;
  generation_model : option string;
  critique : option CritiqueResult;
  critique_model : option string;
  isGenerating : bool;
  isCritiquing : bool;
}.

Inductive OutputLength : Type := short | medium | long.

Module Mode.
Inductive t : Type := generate | critique | council | ultrathink.
End Mode.

Record ReasoningConfig : Type := {
  generator_model : string;
  critic_model : string;
  refiner_model : string;
  temperature : float;
  max_tokens : Z;
  max_iterations : Z;
  score_threshold : float;
  output_length : OutputLength;
  mode : Mode.t;
}.

Inductive SessionStatus : Type :=
  idle | running | paused | completed | stopped | error.

#[global] Instance SessionStatus_eq_dec : EqDecision SessionStatus.
Proof. solve_decision. Defined.

Module ContextFile.
Record t : Type := {
  name : string;
  content : string;
  type : string;
  size : Z;
  isBase64 : option bool;
  mimeType : option string;
}.
End ContextFile.

Inductive StreamingType : Type := generation_stream | critique_stream.

Record ReasoningState : Type := {
  sessionId : option string;
  task : string;
  context : string;
  contextFiles : list ContextFile.t;
  status : SessionStatus;
  iterations : JsArray.t Iteration;
  currentIteration : Z;
  finalOutput : option string;
  finalScore : option float;
  streamingContent : string;
  streamingType : option StreamingType;
  config : ReasoningConfig;
  wsConnected : bool;
  needsWebSocket : bool;
}.

(** ** Role rotation *)

(** JavaScript [%] on integers: the remainder has the sign of the dividend. *)
Definition js_rem (a b : Z) : Z := Z.rem a b.

(** [xs[i]] on a dense array literal: [undefined] outside of it. *)
Definition js_nth {A : Type} (xs : list A) (i : Z) : option A :=
  if 0 <=? i then xs !! Z.to_nat i else None.

(** [x + 1] for an integer [x] that a number holds.  JavaScript adds in
    binary64: the sum is exact as long as it is at most [2^53] in
    magnitude.  Past that, the integers that a number holds are the even
    ones up to [2^54] and multiples of 4 or more beyond; [x + 1] then lies
    half-way between [x] and [x + 2], and is rounded to the one with the
    even significand (the multiple of 4), or lies nearest to [x] and is
    rounded to [x].  [js_succ_is_binary64_sum] compares it with the
    binary64 sum itself where the rounding changes. *)
Definition js_succ (x : Z) : Z :=
  if (- 2 ^ 53 <=? x) && (x <? 2 ^ 53) then x + 1
  else if Z.abs x <? 2 ^ 54 then (if x mod 4 =? 0 then x else x + 2)
  else x.

(** The binary64 number nearest to an integer below [2^63] in magnitude,
    and the integer that a binary64 number holds, if it holds one. *)
Definition float_of_Z (z : Z) : float :=
  match z with
  | Z0 => 0%float
  | Zpos _ => of_uint63 (Uint63.of_Z z)
  | Zneg p => (- of_uint63 (Uint63.of_Z (Zpos p)))%float
  end.

Definition Z_of_float (f : float) : option Z :=
  match FloatOps.Prim2SF f with
  | SpecFloat.S754_zero _ => Some 0
  | SpecFloat.S754_finite s m e =>
      let sign := if s then -1 else 1 in
      if 0 <=? e then Some (sign * (Zpos m * 2 ^ e))
      else if Zpos m mod 2 ^ (- e) =? 0
           then Some (sign * (Zpos m / 2 ^ (- e)))
           else None
  | _ => None
  end.

Record Rotated : Type := {
  generator : option string;
  critic : option string;
}.

Definition roster (config : ReasoningConfig) : list string :=
  [generator_model config; critic_model config; refiner_model config].

Definition getRotatedModels (config : ReasoningConfig) (iteration : Z) : Rotated :=
  let models := roster config in
  let genIdx := js_rem iteration 3 in
  let criticIdx := js_rem (js_succ iteration) 3 in
  {| generator := js_nth models genIdx; critic := js_nth models criticIdx |}.

(** [ModelTriad]: the role displayed for the model slot [slot] (0, 1, 2). *)
Inductive Role : Type := Generator | Critic | Refiner.

Definition slotRole (currentIteration slot : Z) : Role :=
  let genIdx := js_rem currentIteration 3 in
  let critIdx := js_rem (js_succ currentIteration) 3 in
  if genIdx =? slot then Generator
  else if critIdx =? slot then Critic
  else Refiner.

Definition defaultConfig : ReasoningConfig := {|
  generator_model := "anthropic/claude-3.7-sonnet";
  critic_model := "openai/o3";
  refiner_model := "anthropic/claude-opus-4.5";
  temperature := 1.0%float;
  max_tokens := 32000;
  max_iterations := 5;
  score_threshold := 8.0%float;
  output_length := long;
  mode := Mode.generate;
|}.

(** ** The store

    zustand's [set(partial)] merges the listed fields into the state and
    keeps every other field.  A partial state is the list of its field
    assignments, [K.status v] standing for the entry [status: v]. *)

Module K.
Inductive Field : Type :=
| sessionId (v : option string)
| task (v : string)
| context (v : string)
| contextFiles (v : list ContextFile.t)
| status (v : SessionStatus)
| iterations (v : JsArray.t Iteration)
| currentIteration (v : Z)
| finalOutput (v : option string)
| finalScore (v : option float)
| streamingContent (v : string)
| streamingType (v : option StreamingType)
| config (v : ReasoningConfig)
| wsConnected (v : bool)
| needsWebSocket (v : bool).
End K.

Definition assign (f : K.Field) (s : ReasoningState) : ReasoningState :=
  match f with
  | K.sessionId v =>
    {| sessionId := v; task := task s; context := context s;
       contextFiles := contextFiles s; status := status s;
       iterations := iterations s; currentIteration := currentIteration s;
       finalOutput := finalOutput s; finalScore := finalScore s;
       streamingContent := streamingContent s;
       streamingType := streamingType s; config := config s;
       wsConnected := wsConnected s; needsWebSocket := needsWebSocket s |}
  | K.task v =>
    {| sessionId := sessionId s; task := v; context := context s;
       contextFiles := contextFiles s; status := status s;
       iterations := iterations s; currentIteration := currentIteration s;
       finalOutput := finalOutput s; finalScore := finalScore s;
       streamingContent := streamingContent s;
       streamingType := streamingType s; config := config s;
       wsConnected := wsConnected s; needsWebSocket := needsWebSocket s |}
  | K.context v =>
    {| sessionId := sessionId s; task := task s; context := v;
       contextFiles := contextFiles s; status := status s;
       iterations := iterations s; currentIteration := currentIteration s;
       finalOutput := finalOutput s; finalScore := finalScore s;
       streamingContent := streamingContent s;
       streamingType := streamingType s; config := config s;
       wsConnected := wsConnected s; needsWebSocket := needsWebSocket s |}
  | K.contextFiles v =>
    {| sessionId := sessionId s; task := task s; context := context s;
       contextFiles := v; status := status s; iterations := iterations s;
       currentIteration := currentIteration s;
       finalOutput := finalOutput s; finalScore := finalScore s;
       streamingContent := streamingContent s;
       streamingType := streamingType s; config := config s;
       wsConnected := wsConnected s; needsWebSocket := needsWebSocket s |}
  | K.status v =>
    {| sessionId := sessionId s; task := task s; context := context s;
       contextFiles := contextFiles s; status := v;
       iterations := iterations s; currentIteration := currentIteration s;
       finalOutput := finalOutput s; finalScore := finalScore s;
       streamingContent := streamingContent s;
       streamingType := streamingType s; config := config s;
       wsConnected := wsConnected s; needsWebSocket := needsWebSocket s |}
  | K.iterations v =>
    {| sessionId := sessionId s; task := task s; context := context s;
       contextFiles := contextFiles s; status := status s;
       iterations := v; currentIteration := currentIteration s;
       finalOutput := finalOutput s; finalScore := finalScore s;
       streamingContent := streamingContent s;
       streamingType := streamingType s; config := config s;
       wsConnected := wsConnected s; needsWebSocket := needsWebSocket s |}
  | K.currentIteration v =>
    {| sessionId := sessionId s; task := task s; context := context s;
       contextFiles := contextFiles s; status := status s;
       iterations := iterations s; currentIteration := v;
       finalOutput := finalOutput s; finalScore := finalScore s;
       streamingContent := streamingContent s;
       streamingType := streamingType s; config := config s;
       wsConnected := wsConnected s; needsWebSocket := needsWebSocket s |}
  | K.finalOutput v =>
    {| sessionId := sessionId s; task := task s; context := context s;
       contextFiles := contextFiles s; status := status s;
       iterations := iterations s; currentIteration := currentIteration s;
       finalOutput := v; finalScore := finalScore s;
       streamingContent := streamingContent s;
       streamingType := streamingType s; config := config s;
       wsConnected := wsConnected s; needsWebSocket := needsWebSocket s |}
  | K.finalScore v =>
    {| sessionId := sessionId s; task := task s; context := context s;
       contextFiles := contextFiles s; status := status s;
       iterations := iterations s; currentIteration := currentIteration s;
       finalOutput := finalOutput s; finalScore := v;
       streamingContent := streamingContent s;
       streamingType := streamingType s; config := config s;
       wsConnected := wsConnected s; needsWebSocket := needsWebSocket s |}
  | K.streamingContent v =>
    {| sessionId := sessionId s; task := task s; context := context s;
       contextFiles := contextFiles s; status := status s;
       iterations := iterations s; currentIteration := currentIteration s;
       finalOutput := finalOutput s; finalScore := finalScore s;
       streamingContent := v; streamingType := streamingType s;
       config := config s; wsConnected := wsConnected s;
       needsWebSocket := needsWebSocket s |}
  | K.streamingType v =>
    {| sessionId := sessionId s; task := task s; context := context s;
       contextFiles := contextFiles s; status := status s;
       iterations := iterations s; currentIteration := currentIteration s;
       finalOutput := finalOutput s; finalScore := finalScore s;
       streamingContent := streamingContent s; streamingType := v;
       config := config s; wsConnected := wsConnected s;
       needsWebSocket := needsWebSocket s |}
  | K.config v =>
    {| sessionId := sessionId s; task := task s; context := context s;
       contextFiles := contextFiles s; status := status s;
       iterations := iterations s; currentIteration := currentIteration s;
       finalOutput := finalOutput s; finalScore := finalScore s;
       streamingContent := streamingContent s;
       streamingType := streamingType s; config := v;
       wsConnected := wsConnected s; needsWebSocket := needsWebSocket s |}
  | K.wsConnected v =>
    {| sessionId := sessionId s; task := task s; context := context s;
       contextFiles := contextFiles s; status := status s;
       iterations := iterations s; currentIteration := currentIteration s;
       finalOutput := finalOutput s; finalScore := finalScore s;
       streamingContent := streamingContent s;
       streamingType := streamingType s; config := config s;
       wsConnected := v; needsWebSocket := needsWebSocket s |}
  | K.needsWebSocket v =>
    {| sessionId := sessionId s; task := task s; context := context s;
       contextFiles := contextFiles s; status := status s;
       iterations := iterations s; currentIteration := currentIteration s;
       finalOutput := finalOutput s; finalScore := finalScore s;
       streamingContent := streamingContent s;
       streamingType := streamingType s; config := config s;
       wsConnected := wsConnected s; needsWebSocket := v |}
  end.

Definition set (partial : list K.Field) (s : ReasoningState) : ReasoningState :=
  fold_left (fun st f => assign f st) partial s.

Definition initialState : ReasoningState := {|
  sessionId := None;
  task := "";
  context := "";
  contextFiles := [];
  status := idle;
  iterations := JsArray.empty;
  currentIteration := 0;
  finalOutput := None;
  finalScore := None;
  streamingContent := "";
  streamingType := None;
  config := defaultConfig;
  wsConnected := false;
  needsWebSocket := false;
|}.

Definition setSessionId (id : option string) (needs : bool) : ReasoningState -> ReasoningState :=
  set [K.sessionId id; K.needsWebSocket needs].

Definition setStatus (st : SessionStatus) : ReasoningState -> ReasoningState :=
  set [K.status st].

Definition setWsConnected (connected : bool) : ReasoningState -> ReasoningState :=
  set [K.wsConnected connected].

Definition setNeedsWebSocket (needs : bool) : ReasoningState -> ReasoningState :=
  set [K.needsWebSocket needs].

Definition clearIterations : ReasoningState -> ReasoningState :=
  set [K.iterations JsArray.empty; K.currentIteration 0; K.finalOutput None;
       K.finalScore None].

(** Assignments to the fields of an iteration object. *)
Definition with_generation (v : string) (it : Iteration) : Iteration :=
  {| number := number it; generation := v;
     generation_model := generation_model it; critique := critique it;
     critique_model := critique_model it; isGenerating := isGenerating it;
     isCritiquing := isCritiquing it |}.

Definition with_critique (v : option CritiqueResult) (it : Iteration) : Iteration :=
  {| number := number it; generation := generation it;
     generation_model := generation_model it; critique := v;
     critique_model := critique_model it; isGenerating := isGenerating it;
     isCritiquing := isCritiquing it |}.

Definition with_isGenerating (v : bool) (it : Iteration) : Iteration :=
  {| number := number it; generation := generation it;
     generation_model := generation_model it; critique := critique it;
     critique_model := critique_model it; isGenerating := v;
     isCritiquing := isCritiquing it |}.

Definition with_isCritiquing (v : bool) (it : Iteration) : Iteration :=
  {| number := number it; generation := generation it;
     generation_model := generation_model it; critique := critique it;
     critique_model := critique_model it; isGenerating := isGenerating it;
     isCritiquing := v |}.

(** [if (iterations[current]) { ...assignments to iterations[current]... }]:
    the object found under [current] is updated in place; nothing happens
    when there is none.  The spread copies the array, not the iteration
    objects: the array of the previous state shares them and sees the
    update too.  Each object sits under one key of one array at a time (it
    is created by [startGeneration] for that key), so the fields of the
    store as read after an action are those of the array written here. *)
Definition update_at (current : Z) (f : Iteration -> Iteration)
    (a : JsArray.t Iteration) : JsArray.t Iteration :=
  match JsArray.get a current with
  | Some it => JsArray.set a current (f it)
  | None => a
  end.

Definition startGeneration (iteration : Z) (s : ReasoningState) : ReasoningState :=
  let iterations0 := JsArray.spread (iterations s) in
  let config := config s in
  let rotated := getRotatedModels config iteration in
  let iterations1 :=
    match JsArray.get iterations0 iteration with
    | None =>
        JsArray.set iterations0 iteration
          {| number := iteration;
             generation := "";
             generation_model := generator rotated;
             critique := None;
             critique_model := critic rotated;
             isGenerating := true;
             isCritiquing := false |}
    | Some it => JsArray.set iterations0 iteration (with_isGenerating true it)
    end in
  set [K.iterations iterations1; K.currentIteration iteration;
       K.streamingContent ""; K.streamingType (Some generation_stream);
       K.status running] s.

Definition appendGenerationChunk (chunk : string) (s : ReasoningState) : ReasoningState :=
  let streamingContent := String.append (streamingContent s) chunk in
  let iterations0 := JsArray.spread (iterations s) in
  let current := currentIteration s in
  let iterations1 := update_at current (with_generation streamingContent) iterations0 in
  set [K.streamingContent streamingContent; K.iterations iterations1] s.

Definition completeGeneration (content : string) (s : ReasoningState) : ReasoningState :=
  let iterations0 := JsArray.spread (iterations s) in
  let current := currentIteration s in
  let iterations1 :=
    update_at current
      (fun it => with_isGenerating false (with_generation content it))
      iterations0 in
  set [K.iterations iterations1; K.streamingContent ""; K.streamingType None] s.

Definition startCritique (s : ReasoningState) : ReasoningState :=
  let iterations0 := JsArray.spread (iterations s) in
  let current := currentIteration s in
  let iterations1 := update_at current (with_isCritiquing true) iterations0 in
  set [K.iterations iterations1; K.streamingContent "";
       K.streamingType (Some critique_stream)] s.

Definition appendCritiqueChunk (chunk : string) (s : ReasoningState) : ReasoningState :=
  set [K.streamingContent (String.append (streamingContent s) chunk)] s.

Definition completeCritique (critique : CritiqueResult) (s : ReasoningState) : ReasoningState :=
  let iterations0 := JsArray.spread (iterations s) in
  let current := currentIteration s in
  let iterations1 :=
    update_at current
      (fun it => with_isCritiquing false (with_critique (Some critique) it))
      iterations0 in
  set [K.iterations iterations1; K.streamingContent ""; K.streamingType None] s.

Definition completeIteration (content : string) (_score : float)
    (critique : CritiqueResult) (s : ReasoningState) : ReasoningState :=
  let iterations0 := JsArray.spread (iterations s) in
  let current := currentIteration s in
  let iterations1 :=
    update_at current
      (fun it =>
         with_isCritiquing false
           (with_isGenerating false
              (with_critique (Some critique) (with_generation content it))))
      iterations0 in
  set [K.iterations iterations1] s.

Definition completeSession (output : string) (score : float) : ReasoningState -> ReasoningState :=
  set [K.finalOutput (Some output); K.finalScore (Some score); K.status completed;
       K.streamingContent ""; K.streamingType None].

Definition reset : ReasoningState -> ReasoningState :=
  set [K.sessionId None; K.task ""; K.context ""; K.contextFiles []; K.status idle;
       K.iterations JsArray.empty; K.currentIteration 0; K.finalOutput None;
       K.finalScore None; K.streamingContent ""; K.streamingType None;
       K.wsConnected false; K.needsWebSocket false].

(** ** The connection manager ([useReasoningWebSocket]) *)

(** The inbound event, with the fields and types of the source's
    [interface ReasoningEvent]; [iteration] is an integer. *)
Module ReasoningEvent.
Record t : Type := {
  type : string;
  session_id : string;
  iteration : Z;
  content : string;
  score : option float;               (* [score?: number] *)
  critique : option CritiqueResult;   (* [critique?: CritiqueResult] *)
  timestamp : string;
}.
End ReasoningEvent.

(** [x || 0] on an optional number: [undefined], [0], [-0] and [NaN] are
    falsy. *)
Definition or_zero (x : option float) : float :=
  match x with
  | Some v => if is_zero v || is_nan v then 0%float else v
  | None => 0%float
  end.

(** Exceptions and the completion of a statement block. *)
Inductive Exn : Type := SyntaxError | TypeError.

Inductive Completion (A : Type) : Type :=
| Normal (a : A)
| Throw (e : Exn).
Arguments Normal {A} _.
Arguments Throw {A} _.

Definition bind {A B : Type} (c : Completion A) (k : A -> Completion B) : Completion B :=
  match c with
  | Normal a => k a
  | Throw e => Throw e
  end.

(** [try { body } catch (err) { handler(err) }] *)
Definition try_catch {A : Type} (body : Completion A) (handler : Exn -> Completion A) : Completion A :=
  match body with
  | Normal a => Normal a
  | Throw e => handler e
  end.

Definition exn_name (e : Exn) : string :=
  match e with
  | SyntaxError => "SyntaxError"
  | TypeError => "TypeError"
  end.

Inductive ReadyState : Type := CONNECTING | OPEN | CLOSING | CLOSED.

#[global] Instance ReadyState_eq_dec : EqDecision ReadyState.
Proof. solve_decision. Defined.

(** A socket made by [createReasoningWebSocket(sid)].  Its handlers are the
    closures that [connect(sid)] registers, so the socket remembers [sid]. *)
Record WebSocket : Type := {
  sid : string;
  readyState : ReadyState;
}.

Inductive ConsoleEntry : Type :=
| console_log (args : list string)
| console_error (args : list string).

(** Calls made on the transport, in program order.  [ws_close] records the
    value that [isIntentionalCloseRef] holds when [close()] is called. *)
Inductive SocketCall : Type :=
| ws_new (ref : nat) (sid : string)
| ws_close (ref : nat) (intentional : bool).

(** The refs of the hook, the sockets it has created (a reference is a
    position in [heap]), the pending [setTimeout] callbacks, the global
    store, and what has been written to the console and asked of the
    transport. *)
Record Hook : Type := {
  heap : list WebSocket;
  wsRef : option nat;
  connectedSessionRef : option string;
  isIntentionalCloseRef : bool;
  reconnectAttempts : Z;
  timers : list (Z * string);
  store : ReasoningState;
  console : list ConsoleEntry;
  calls : list SocketCall;
}.

Definition maxReconnectAttempts : Z := 3.

Definition with_heap (v : list WebSocket) (h : Hook) : Hook :=
  {| heap := v; wsRef := wsRef h; connectedSessionRef := connectedSessionRef h;
     isIntentionalCloseRef := isIntentionalCloseRef h;
     reconnectAttempts := reconnectAttempts h; timers := timers h;
     store := store h; console := console h; calls := calls h |}.

Definition with_wsRef (v : option nat) (h : Hook) : Hook :=
  {| heap := heap h; wsRef := v; connectedSessionRef := connectedSessionRef h;
     isIntentionalCloseRef := isIntentionalCloseRef h;
     reconnectAttempts := reconnectAttempts h; timers := timers h;
     store := store h; console := console h; calls := calls h |}.

Definition with_connectedSessionRef (v : option string) (h : Hook) : Hook :=
  {| heap := heap h; wsRef := wsRef h; connectedSessionRef := v;
     isIntentionalCloseRef := isIntentionalCloseRef h;
     reconnectAttempts := reconnectAttempts h; timers := timers h;
     store := store h; console := console h; calls := calls h |}.

Definition with_isIntentionalCloseRef (v : bool) (h : Hook) : Hook :=
  {| heap := heap h; wsRef := wsRef h; connectedSessionRef := connectedSessionRef h;
     isIntentionalCloseRef := v;
     reconnectAttempts := reconnectAttempts h; timers := timers h;
     store := store h; console := console h; calls := calls h |}.

Definition with_reconnectAttempts (v : Z) (h : Hook) : Hook :=
  {| heap := heap h; wsRef := wsRef h; connectedSessionRef := connectedSessionRef h;
     isIntentionalCloseRef := isIntentionalCloseRef h;
     reconnectAttempts := v; timers := timers h;
     store := store h; console := console h; calls := calls h |}.

Definition with_timers (v : list (Z * string)) (h : Hook) : Hook :=
  {| heap := heap h; wsRef := wsRef h; connectedSessionRef := connectedSessionRef h;
     isIntentionalCloseRef := isIntentionalCloseRef h;
     reconnectAttempts := reconnectAttempts h; timers := v;
     store := store h; console := console h; calls := calls h |}.

Definition with_store (v : ReasoningState) (h : Hook) : Hook :=
  {| heap := heap h; wsRef := wsRef h; connectedSessionRef := connectedSessionRef h;
     isIntentionalCloseRef := isIntentionalCloseRef h;
     reconnectAttempts := reconnectAttempts h; timers := timers h;
     store := v; console := console h; calls := calls h |}.

Definition with_console (v : list ConsoleEntry) (h : Hook) : Hook :=
  {| heap := heap h; wsRef := wsRef h; connectedSessionRef := connectedSessionRef h;
     isIntentionalCloseRef := isIntentionalCloseRef h;
     reconnectAttempts := reconnectAttempts h; timers := timers h;
     store := store h; console := v; calls := calls h |}.

Definition with_calls (v : list SocketCall) (h : Hook) : Hook :=
  {| heap := heap h; wsRef := wsRef h; connectedSessionRef := connectedSessionRef h;
     isIntentionalCloseRef := isIntentionalCloseRef h;
     reconnectAttempts := reconnectAttempts h; timers := timers h;
     store := store h; console := console h; calls := v |}.

(** [useReasoningStore.getState().action(...)] *)
Definition on_store (action : ReasoningState -> ReasoningState) (h : Hook) : Hook :=
  with_store (action (store h)) h.

Definition log (args : list string) (h : Hook) : Hook :=
  with_console (console h ++ [console_log args]) h.

Definition log_error (args : list string) (h : Hook) : Hook :=
  with_console (console h ++ [console_error args]) h.

(** [wsRef.current?.readyState] *)
Definition current_readyState (h : Hook) : option ReadyState :=
  match wsRef h with
  | Some r => readyState <$> heap h !! r
  | None => None
  end.

(** The browser's [ws.close()]: an open or connecting socket starts
    closing; a closing or closed one is left as it is.  The close event is
    delivered later, as a callback. *)
Definition closing (w : WebSocket) : WebSocket :=
  match readyState w with
  | CONNECTING | OPEN => {| sid := sid w; readyState := CLOSING |}
  | CLOSING | CLOSED => w
  end.

(** [wsRef.current.close()] *)
Definition close_current (h : Hook) : Hook :=
  match wsRef h with
  | Some r =>
      with_calls (calls h ++ [ws_close r (isIntentionalCloseRef h)])
        (with_heap (alter closing r (heap h)) h)
  | None => h
  end.

(** The [switch (data.type)] of [ws.onmessage]; it has no default case. *)
Definition dispatch (data : ReasoningEvent.t) (h : Hook) : Hook :=
  let t := ReasoningEvent.type data in
  if (t =? "session_started")%string then
    on_store (setStatus running) h
  else if (t =? "generation_start")%string then
    on_store (startGeneration (ReasoningEvent.iteration data)) h
  else if (t =? "generation_chunk")%string then
    on_store (appendGenerationChunk (ReasoningEvent.content data)) h
  else if (t =? "generation_complete")%string then
    on_store (completeGeneration (ReasoningEvent.content data)) h
  else if (t =? "critique_start")%string then
    on_store startCritique h
  else if (t =? "critique_chunk")%string then
    on_store (appendCritiqueChunk (ReasoningEvent.content data)) h
  else if (t =? "critique_complete")%string then
    match ReasoningEvent.critique data with
    | Some c => on_store (completeCritique c) h
    | None => h
    end
  else if (t =? "iteration_complete")%string then
    match ReasoningEvent.critique data, ReasoningEvent.score data with
    | Some c, Some sc =>
        on_store (completeIteration (ReasoningEvent.content data) sc c) h
    | _, _ => h
    end
  else if (t =? "session_complete")%string then
    with_isIntentionalCloseRef true
      (on_store (completeSession (ReasoningEvent.content data)
                   (or_zero (ReasoningEvent.score data))) h)
  else if (t =? "session_stopped")%string then
    with_isIntentionalCloseRef true (on_store (setStatus stopped) h)
  else if (t =? "session_paused")%string then
    on_store (setStatus paused) h
  else if (t =? "session_resumed")%string then
    on_store (setStatus running) h
  else if (t =? "session_error")%string then
    with_isIntentionalCloseRef true
      (on_store (setStatus error)
         (log_error ["Session error:"; ReasoningEvent.content data] h))
  else h.

Definition known_types : list string :=
  ["session_started"; "generation_start"; "generation_chunk";
   "generation_complete"; "critique_start"; "critique_chunk";
   "critique_complete"; "iteration_complete"; "session_complete";
   "session_stopped"; "session_paused"; "session_resumed"; "session_error"].

Record CloseEvent : Type := {
  code : Z;
  reason : string;
}.

Definition show_Z (z : Z) : string := pretty z.

Section Handlers.

(** [JSON.parse(event.data)] read at the type the source gives it,
    [ReasoningEvent]; it throws on a payload that is not such an event. *)
Variable JSON_parse : string -> Completion ReasoningEvent.t.

Definition connect (sid : string) (h : Hook) : Hook :=
  match current_readyState h with
  | Some OPEN | Some CONNECTING => h   (* already connected or connecting *)
  | _ =>
      let h1 := log ["Connecting WebSocket for session:"; sid] h in
      let h2 := with_isIntentionalCloseRef false h1 in
      let ws := length (heap h2) in
      let h3 :=
        with_calls (calls h2 ++ [ws_new ws sid])
          (with_heap (heap h2 ++ [{| sid := sid; readyState := CONNECTING |}]) h2) in
      with_connectedSessionRef (Some sid) (with_wsRef (Some ws) h3)
  end.

Definition onopen (h : Hook) : Hook :=
  on_store (setWsConnected true)
    (with_reconnectAttempts 0 (log ["WebSocket connected"] h)).

Definition onmessage (payload : string) (h : Hook) : Completion Hook :=
  try_catch
    (bind (JSON_parse payload) (fun data =>
       let h1 := log ["WS Event:"; ReasoningEvent.type data] h in
       Normal (dispatch data h1)))
    (fun err =>
       Normal (log_error ["Failed to parse WebSocket message:"; exn_name err] h)).

Definition onerror (h : Hook) : Hook :=
  log_error ["WebSocket error:"] h.

Definition onclose (sid : string) (event : CloseEvent) (h : Hook) : Hook :=
  let h1 := log ["WebSocket closed, code:"; show_Z (code event); "reason:";
                 reason event] h in
  let h2 := on_store (setWsConnected false) h1 in
  if negb (isIntentionalCloseRef h2)
     && bool_decide (status (store h2) = running)
     && bool_decide (connectedSessionRef h2 = Some sid)
     && (reconnectAttempts h2 <? maxReconnectAttempts)
  then
    let h3 := with_reconnectAttempts (reconnectAttempts h2 + 1) h2 in
    let h4 := log ["Reconnecting (attempt "; show_Z (reconnectAttempts h3); "/";
                   show_Z maxReconnectAttempts; ")..."] h3 in
    with_timers (timers h4 ++ [(1000 * reconnectAttempts h4, sid)]) h4
  else h2.

(** A string is falsy when it is [null] or empty. *)
Definition truthy (sessionId : option string) : option string :=
  match sessionId with
  | Some s => if (s =? "")%string then None else Some s
  | None => None
  end.

(** The effect on [[sessionId, shouldConnect, connect]]. *)
Definition effect (sessionId : option string) (shouldConnect : bool) (h : Hook) : Hook :=
  match truthy sessionId, shouldConnect with
  | Some sessionId, true =>
      if bool_decide (connectedSessionRef h = Some sessionId)
         && bool_decide (current_readyState h = Some OPEN)
      then h
      else
        let h1 :=
          if bool_decide (wsRef h <> None)
             && negb (bool_decide (connectedSessionRef h = Some sessionId))
          then with_wsRef None (close_current (with_isIntentionalCloseRef true h))
          else h in
        connect sessionId (with_reconnectAttempts 0 h1)
  | _, _ =>
      let h1 :=
        if bool_decide (wsRef h <> None)
        then with_wsRef None (close_current (with_isIntentionalCloseRef true h))
        else h in
      with_connectedSessionRef None h1
  end.

(** The cleanup of the unmount effect. *)
Definition unmount (h : Hook) : Hook :=
  let h1 := log ["Component unmounting, cleaning up WebSocket"] h in
  let h2 := with_isIntentionalCloseRef true h1 in
  if bool_decide (wsRef h2 <> None)
  then with_wsRef None (close_current h2)
  else h2.

(** ** The event loop

    Everything runs on callbacks: the two effects, the four socket events
    of any socket the hook has created, the timers it has set, and updates
    of the store made by the rest of the application. *)

Inductive Callback : Type :=
| Effect (sessionId : option string) (shouldConnect : bool)
| Unmount
| Open (ref : nat)
| Message (ref : nat) (payload : string)
| Error (ref : nat)
| Close (ref : nat) (event : CloseEvent)
| Timeout (n : nat)
| StoreUpdate (action : ReasoningState -> ReasoningState).

Definition with_readyState (r : nat) (st : ReadyState) (h : Hook) : Hook :=
  with_heap (alter (fun w => {| sid := sid w; readyState := st |}) r (heap h)) h.

Definition result (h : Hook) (c : Completion Hook) : Hook :=
  match c with
  | Normal h' => h'
  | Throw _ => h   (* an uncaught exception in a handler is reported, no more *)
  end.

(** The browser delivers [open] to a connecting socket, [message] to an open
    or closing one, [close] once to a socket that is not closed yet; a
    pending timer runs [connect(sid)].  A callback that cannot occur in the
    state leaves it as it is. *)
Definition fire (cb : Callback) (h : Hook) : Hook :=
  match cb with
  | Effect sessionId shouldConnect => effect sessionId shouldConnect h
  | Unmount => unmount h
  | Open r =>
      match readyState <$> heap h !! r with
      | Some CONNECTING => onopen (with_readyState r OPEN h)
      | _ => h
      end
  | Message r payload =>
      match readyState <$> heap h !! r with
      | Some OPEN | Some CLOSING => result h (onmessage payload h)
      | _ => h
      end
  | Error r =>
      match heap h !! r with
      | Some _ => onerror h
      | None => h
      end
  | Close r event =>
      match heap h !! r with
      | Some w =>
          match readyState w with
          | CLOSED => h
          | _ => onclose (sid w) event (with_readyState r CLOSED h)
          end
      | None => h
      end
  | Timeout n =>
      match timers h !! n with
      | Some (_, sid) => connect sid (with_timers (delete n (timers h)) h)
      | None => h
      end
  | StoreUpdate action => on_store action h
  end.

Definition run (cbs : list Callback) (h : Hook) : Hook :=
  fold_left (fun st cb => fire cb st) cbs h.

End Handlers.

(** The hook when the component mounts, over the store as it is then. *)
Definition mount (s : ReasoningState) : Hook := {|
  heap := [];
  wsRef := None;
  connectedSessionRef := None;
  isIntentionalCloseRef := false;
  reconnectAttempts := 0;
  timers := [];
  store := s;
  console := [];
  calls := [];
|}.

(** ** Properties under study *)

(** What every store action reads as [iterations[current]] on its copy of
    the array: the element under the current iteration number, if any. *)
Definition current (s : ReasoningState) : option Iteration :=
  JsArray.get (JsArray.spread (iterations s)) (currentIteration s).

(** The rotation of the design: model [i mod 3] generates, model
    [(i + 1) mod 3] criticises and the remaining one refines, the three
    slots carry three different roles, and the assignment has period 3. *)
Definition rotation_as_designed (config : ReasoningConfig) (i : Z) : Prop :=
  generator (getRotatedModels config i) = roster config !! Z.to_nat (i mod 3)
  /\ critic (getRotatedModels config i) = roster config !! Z.to_nat ((i + 1) mod 3)
  /\ slotRole i (i mod 3) = Generator
  /\ slotRole i ((i + 1) mod 3) = Critic
  /\ slotRole i ((i + 2) mod 3) = Refiner
  /\ NoDup [i mod 3; (i + 1) mod 3; (i + 2) mod 3]
  /\ NoDup [slotRole i 0; slotRole i 1; slotRole i 2]
  /\ getRotatedModels config i = getRotatedModels config (i + 3)
  /\ (forall slot, slotRole i slot = slotRole (i + 3) slot).

(** The message dispatcher applied to a sequence of events, in order. *)
Definition dispatch_all (events : list ReasoningEvent.t) (h : Hook) : Hook :=
  fold_left (fun st e => dispatch e st) events h.

(** An event carrying only what the handlers read. *)
Definition event (type : string) (iteration : Z) (content : string) : ReasoningEvent.t :=
  {| ReasoningEvent.type := type; ReasoningEvent.session_id := "s1";
     ReasoningEvent.iteration := iteration; ReasoningEvent.content := content;
     ReasoningEvent.score := None; ReasoningEvent.critique := None;
     ReasoningEvent.timestamp := "" |}.

(** An event with a critique and a score, as [critique_complete],
    [iteration_complete] and [session_complete] carry them. *)
Definition scored_event (type : string) (content : string)
    (score : option float) (critique : option CritiqueResult) : ReasoningEvent.t :=
  {| ReasoningEvent.type := type; ReasoningEvent.session_id := "s1";
     ReasoningEvent.iteration := 0; ReasoningEvent.content := content;
     ReasoningEvent.score := score; ReasoningEvent.critique := critique;
     ReasoningEvent.timestamp := "" |}.

Definition sample_critique : CritiqueResult :=
  {| strengths := ["clear"]; weaknesses := []; suggestions := ["shorter"];
     score := 7.5%float; raw_critique := "Score: 7.5" |}.

(** *** Reconnection

    The timers that a callback has set: those pending in [after] that were
    not pending in [before]. *)
Definition scheduled (before after : Hook) : list (Z * string) :=
  drop (length (timers before)) (timers after).



(** A run of the event loop in which every connection attempt fails: the
    session ["s1"] is running, its socket opens and is then lost, and each
    socket made by a reconnection timer closes without opening.  [lost n]
    is the state in which the close event of socket [n] is handled. *)
Definition no_parse : string -> Completion ReasoningEvent.t :=
  fun _ => Throw SyntaxError.

Definition abnormal_closure : CloseEvent := {| code := 1006; reason := "" |}.

Definition connected_s1 : Hook :=
  run no_parse [Effect (Some "s1") true; Open 0]
    (mount (setStatus running initialState)).



(** *** One transport at a time *)

(** Open or connecting. *)
Definition is_live (w : WebSocket) : bool :=
  match readyState w with
  | CONNECTING | OPEN => true
  | CLOSING | CLOSED => false
  end.

(** Any two open-or-connecting sockets are the same socket. *)
Definition one_live_transport (h : Hook) : Prop :=
  forall r1 r2 w1 w2,
    heap h !! r1 = Some w1 -> heap h !! r2 = Some w2 ->
    is_live w1 = true -> is_live w2 = true ->
    r1 = r2.

(** The invariant behind it: a socket that is open or connecting is the
    one held by [wsRef]. *)
Definition only_current_live (h : Hook) : Prop :=
  forall r w, heap h !! r = Some w -> is_live w = true -> wsRef h = Some r.

Definition no_live (h : Hook) : Prop :=
  forall r w, heap h !! r = Some w -> is_live w = false.

(** [wsRef] holds a socket that the hook has created. *)
Definition wsRef_valid (h : Hook) : Prop :=
  forall r, wsRef h = Some r -> (r < length (heap h))%nat.

(** *** Sequences of store actions *)

Inductive Action : Type :=
| StartGeneration (iteration : Z)
| AppendGenerationChunk (chunk : string)
| CompleteGeneration (content : string)
| StartCritique
| AppendCritiqueChunk (chunk : string)
| CompleteCritique (critique : CritiqueResult)
| CompleteIteration (content : string) (score : float) (critique : CritiqueResult)
| CompleteSession (output : string) (score : float).

Definition perform (a : Action) : ReasoningState -> ReasoningState :=
  match a with
  | StartGeneration iteration => startGeneration iteration
  | AppendGenerationChunk chunk => appendGenerationChunk chunk
  | CompleteGeneration content => completeGeneration content
  | StartCritique => startCritique
  | AppendCritiqueChunk chunk => appendCritiqueChunk chunk
  | CompleteCritique critique => completeCritique critique
  | CompleteIteration content score critique =>
      completeIteration content score critique
  | CompleteSession output score => completeSession output score
  end.

Definition perform_all (acts : list Action) (s : ReasoningState) : ReasoningState :=
  fold_left (fun st a => perform a st) acts s.

Inductive Flag : Type := flag_isGenerating | flag_isCritiquing.

Definition flag_of (f : Flag) (it : Iteration) : bool :=
  match f with
  | flag_isGenerating => isGenerating it
  | flag_isCritiquing => isCritiquing it
  end.

(** Any two flags that are set are the same flag of the same iteration. *)
Definition at_most_one_flag (s : ReasoningState) : Prop :=
  forall k1 k2 it1 it2 f1 f2,
    JsArray.get (iterations s) k1 = Some it1 ->
    JsArray.get (iterations s) k2 = Some it2 ->
    flag_of f1 it1 = true -> flag_of f2 it2 = true ->
    k1 = k2 /\ f1 = f2.

(** Over a step from [s] to [s']: every iteration that has a critique in
    [s'] has a non-empty generation, unless it had that same critique in
    [s] already (the step did not write it). *)
Definition critique_after_generation (s s' : ReasoningState) : Prop :=
  forall k it',
    JsArray.get (iterations s') k = Some it' ->
    critique it' <> None ->
    generation it' <> ""
    \/ exists it, JsArray.get (iterations s) k = Some it
                  /\ critique it = critique it'.

(** The order of a round in the protocol of the design: [generation_start],
    generation chunks, [generation_complete] with a non-empty content, then
    possibly [critique_start], critique chunks, [critique_complete], and
    possibly [iteration_complete] with a non-empty content, before the next
    [generation_start].  [session_complete] may come at any point. *)
Inductive Phase : Type := Idle | Generating | Generated | Critiquing.

Definition nonempty (s : string) : bool := negb (s =? "")%string.

Definition next (p : Phase) (a : Action) : option Phase :=
  match a, p with
  | StartGeneration _, (Idle | Generated) => Some Generating
  | AppendGenerationChunk _, Generating => Some Generating
  | CompleteGeneration content, Generating =>
      if nonempty content then Some Generated else None
  | StartCritique, Generated => Some Critiquing
  | AppendCritiqueChunk _, Critiquing => Some Critiquing
  | CompleteCritique _, Critiquing => Some Generated
  | CompleteIteration content _ _, (Generating | Generated | Critiquing) =>
      if nonempty content then Some Generated else None
  | CompleteSession _ _, _ => Some p
  | _, _ => None
  end.

Fixpoint follow (p : Phase) (acts : list Action) : option Phase :=
  match acts with
  | [] => Some p
  | a :: rest =>
      match next p a with
      | Some p' => follow p' rest
      | None => None
      end
  end.

(** No flag is set. *)
Definition quiet (s : ReasoningState) : Prop :=
  forall k it, JsArray.get (iterations s) k = Some it ->
               isGenerating it = false /\ isCritiquing it = false.

Definition generated (s : ReasoningState) : Prop :=
  forall it, current s = Some it -> generation it <> "".

(** What holds of the store in each phase of a round. *)
Definition phase_inv (p : Phase) (s : ReasoningState) : Prop :=
  match p with
  | Idle => quiet s
  | Generating =>
      forall k it, JsArray.get (iterations s) k = Some it ->
                   isCritiquing it = false
                   /\ (isGenerating it = true -> k = currentIteration s)
  | Generated => quiet s /\ generated s
  | Critiquing =>
      (forall k it, JsArray.get (iterations s) k = Some it ->
                    isGenerating it = false
                    /\ (isCritiquing it = true -> k = currentIteration s))
      /\ generated s
  end.

(** The actions that rewrite the current iteration by some [f]. *)
Definition rewrites (a : Action) : option (Iteration -> Iteration) :=
  match a with
  | CompleteGeneration content =>
      Some (fun it => with_isGenerating false (with_generation content it))
  | StartCritique => Some (with_isCritiquing true)
  | CompleteCritique c =>
      Some (fun it => with_isCritiquing false (with_critique (Some c) it))
  | CompleteIteration content _ c =>
      Some (fun it =>
              with_isCritiquing false
                (with_isGenerating false
                   (with_critique (Some c) (with_generation content it))))
  | _ => None
  end.

(** ** The rest of the store and the code that uses it *)

(** A [Partial<ReasoningConfig>] is the list of its entries, [C.mode v]
    standing for [mode: v]. *)
Module C.
Inductive Field : Type :=
| generator_model (v : string)
| critic_model (v : string)
| refiner_model (v : string)
| temperature (v : float)
| max_tokens (v : Z)
| max_iterations (v : Z)
| score_threshold (v : float)
| output_length (v : OutputLength)
| mode (v : Mode.t).
End C.

Definition assign_config (f : C.Field) (c : ReasoningConfig) : ReasoningConfig :=
  match f with
  | C.generator_model v =>
    {| generator_model := v; critic_model := critic_model c;
       refiner_model := refiner_model c; temperature := temperature c;
       max_tokens := max_tokens c; max_iterations := max_iterations c;
       score_threshold := score_threshold c;
       output_length := output_length c; mode := mode c |}
  | C.critic_model v =>
    {| generator_model := generator_model c; critic_model := v;
       refiner_model := refiner_model c; temperature := temperature c;
       max_tokens := max_tokens c; max_iterations := max_iterations c;
       score_threshold := score_threshold c;
       output_length := output_length c; mode := mode c |}
  | C.refiner_model v =>
    {| generator_model := generator_model c;
       critic_model := critic_model c; refiner_model := v;
       temperature := temperature c; max_tokens := max_tokens c;
       max_iterations := max_iterations c;
       score_threshold := score_threshold c;
       output_length := output_length c; mode := mode c |}
  | C.temperature v =>
    {| generator_model := generator_model c;
       critic_model := critic_model c; refiner_model := refiner_model c;
       temperature := v; max_tokens := max_tokens c;
       max_iterations := max_iterations c;
       score_threshold := score_threshold c;
       output_length := output_length c; mode := mode c |}
  | C.max_tokens v =>
    {| generator_model := generator_model c;
       critic_model := critic_model c; refiner_model := refiner_model c;
       temperature := temperature c; max_tokens := v;
       max_iterations := max_iterations c;
       score_threshold := score_threshold c;
       output_length := output_length c; mode := mode c |}
  | C.max_iterations v =>
    {| generator_model := generator_model c;
       critic_model := critic_model c; refiner_model := refiner_model c;
       temperature := temperature c; max_tokens := max_tokens c;
       max_iterations := v; score_threshold := score_threshold c;
       output_length := output_length c; mode := mode c |}
  | C.score_threshold v =>
    {| generator_model := generator_model c;
       critic_model := critic_model c; refiner_model := refiner_model c;
       temperature := temperature c; max_tokens := max_tokens c;
       max_iterations := max_iterations c; score_threshold := v;
       output_length := output_length c; mode := mode c |}
  | C.output_length v =>
    {| generator_model := generator_model c;
       critic_model := critic_model c; refiner_model := refiner_model c;
       temperature := temperature c; max_tokens := max_tokens c;
       max_iterations := max_iterations c;
       score_threshold := score_threshold c; output_length := v;
       mode := mode c |}
  | C.mode v =>
    {| generator_model := generator_model c;
       critic_model := critic_model c; refiner_model := refiner_model c;
       temperature := temperature c; max_tokens := max_tokens c;
       max_iterations := max_iterations c;
       score_threshold := score_threshold c;
       output_length := output_length c; mode := v |}
  end.

(** [{ ...state.config, ...config }] *)
Definition merge_config (partial : list C.Field) (c : ReasoningConfig) : ReasoningConfig :=
  fold_left (fun cfg f => assign_config f cfg) partial c.

Definition setTask (task : string) : ReasoningState -> ReasoningState :=
  set [K.task task].

Definition setContext (context : string) : ReasoningState -> ReasoningState :=
  set [K.context context].

Definition setContextFiles (files : list ContextFile.t) : ReasoningState -> ReasoningState :=
  set [K.contextFiles files].

Definition setConfig (partial : list C.Field) (s : ReasoningState) : ReasoningState :=
  set [K.config (merge_config partial (config s))] s.

(** Every function of the store. *)
Inductive StoreCall : Type :=
| Iter (a : Action)
| SetTask (task : string)
| SetContext (context : string)
| SetContextFiles (files : list ContextFile.t)
| SetConfig (partial : list C.Field)
| SetSessionId (id : option string) (needs : bool)
| SetStatus (st : SessionStatus)
| SetWsConnected (connected : bool)
| SetNeedsWebSocket (needs : bool)
| ClearIterations
| Reset.

Definition invoke (c : StoreCall) : ReasoningState -> ReasoningState :=
  match c with
  | Iter a => perform a
  | SetTask task => setTask task
  | SetContext context => setContext context
  | SetContextFiles files => setContextFiles files
  | SetConfig partial => setConfig partial
  | SetSessionId id needs => setSessionId id needs
  | SetStatus st => setStatus st
  | SetWsConnected connected => setWsConnected connected
  | SetNeedsWebSocket needs => setNeedsWebSocket needs
  | ClearIterations => clearIterations
  | Reset => reset
  end.

Definition invoke_all (cs : list StoreCall) (s : ReasoningState) : ReasoningState :=
  fold_left (fun st c => invoke c st) cs s.

(** The iteration that an action addresses: the one it opens, or the
    current one. *)
Definition addressed (a : Action) (s : ReasoningState) : Z :=
  match a with
  | StartGeneration iteration => iteration
  | _ => currentIteration s
  end.

(** *** [ProcessVisualizer]: the phase shown for the session *)

Module UiPhase.
Inductive t : Type :=
| idle
| council_querying
| council_reviewing
| council_synthesizing
| generating
| critiquing
| refining
| complete.
End UiPhase.

Definition getCurrentPhase (status : SessionStatus)
    (iterations : JsArray.t Iteration) : UiPhase.t :=
  if bool_decide (status = idle) then UiPhase.idle
  else if bool_decide (status = completed) then UiPhase.complete
  else
    match JsArray.get iterations (JsArray.length iterations - 1) with
    | None => UiPhase.generating
    | Some currentIter =>
        if number currentIter =? -1 then
          if isGenerating currentIter then UiPhase.council_synthesizing
          else UiPhase.council_querying
        else if isGenerating currentIter then UiPhase.generating
        else if isCritiquing currentIter then UiPhase.critiquing
        else if bool_decide (critique currentIter <> None)
                && negb (isGenerating currentIter)
        then UiPhase.refining
        else UiPhase.generating
    end.

(** *** [ReasoningViewer]: when the hook is asked to connect *)

Definition shouldConnectWs (s : ReasoningState) : bool :=
  needsWebSocket s
  && (bool_decide (status s = idle) || bool_decide (status s = running)).

(** [useReasoningWebSocket(sessionId, shouldConnectWs)] with the values of
    the store: the run of the session-switch effect for them. *)
Definition viewer_effect (h : Hook) : Hook :=
  effect (sessionId (store h)) (shouldConnectWs (store h)) h.

(** *** [SessionManager]: loading a session of the history *)

Module Loaded.
Record iteration : Type := {
  generation : option string;
  critique : option CritiqueResult;
}.
Record session : Type := {
  id : string;
  task : option string;
  context : option string;
  status : option SessionStatus;
  iterations : option (list iteration);
  final_output : option string;
  final_score : option float;
}.
End Loaded.

(** [x || ''] *)
Definition or_empty (x : option string) : string :=
  match x with
  | Some v => v
  | None => ""
  end.

(** The body of [session.iterations.forEach((iter, index) => ...)]. *)
Definition load_iteration (index : Z) (iter : Loaded.iteration)
    (s : ReasoningState) : ReasoningState :=
  let s1 := startGeneration index s in
  let s2 := completeGeneration (or_empty (Loaded.generation iter)) s1 in
  match Loaded.critique iter with
  | Some c => completeCritique c s2
  | None => s2
  end.

Fixpoint load_iterations (index : Z) (iters : list Loaded.iteration)
    (s : ReasoningState) : ReasoningState :=
  match iters with
  | [] => s
  | iter :: rest => load_iterations (index + 1) rest (load_iteration index iter s)
  end.

(** [handleLoadSession(id)], on the store; [response] is the session that
    the fetch returned, [None] when the request failed (the error is
    logged and the store is left alone). *)
Definition handleLoadSession (id : string) (response : option Loaded.session)
    (s : ReasoningState) : ReasoningState :=
  if bool_decide (sessionId s = Some id) then s
  else
    match response with
    | None => s
    | Some session =>
        let s1 := clearIterations s in
        let s2 := setTask (or_empty (Loaded.task session)) s1 in
        let s3 := setContext (or_empty (Loaded.context session)) s2 in
        let s4 := setSessionId (Some (Loaded.id session)) false s3 in
        let s5 :=
          setStatus (match Loaded.status session with
                     | Some st => st
                     | None => completed
                     end) s4 in
        let s6 :=
          match Loaded.iterations session with
          | Some (iter :: rest) => load_iterations 0 (iter :: rest) s5
          | _ => s5
          end in
        match truthy (Loaded.final_output session) with
        | Some output =>
            completeSession output (or_zero (Loaded.final_score session)) s6
        | None => s6
        end
    end.

(** The iteration that loading leaves under [index]. *)
Definition loaded_iteration (config : ReasoningConfig) (index : Z)
    (iter : Loaded.iteration) : Iteration :=
  {| number := index;
     generation := or_empty (Loaded.generation iter);
     generation_model := generator (getRotatedModels config index);
     critique := Loaded.critique iter;
     critique_model := critic (getRotatedModels config index);
     isGenerating := false;
     isCritiquing := false |}.

(** *** [ModeSelector] *)

Module ModeSelector.
Inductive Mode : Type := council | reasonloop | ultrathink.

#[global] Instance Mode_eq_dec : EqDecision Mode.
Proof. solve_decision. Defined.

Record ModeConfig : Type := {
  id : Mode;
  backendMode : Mode.t;
}.

Definition MODES : list ModeConfig :=
  [ {| id := council; backendMode := Mode.council |};
    {| id := reasonloop; backendMode := Mode.generate |};
    {| id := ultrathink; backendMode := Mode.ultrathink |} ].

Definition currentMode (config : ReasoningConfig) : Mode :=
  match mode config with
  | Mode.ultrathink => ultrathink
  | Mode.council => council
  | Mode.critique => council
  | Mode.generate => reasonloop
  end.

Definition handleModeSelect (m : Mode) (s : ReasoningState) : ReasoningState :=
  if bool_decide (status s = running) then s
  else
    match List.find (fun mc => bool_decide (id mc = m)) MODES with
    | Some modeConfig => setConfig [C.mode (backendMode modeConfig)] s
    | None => s
    end.
End ModeSelector.

(** *** Invariants of the store and of the hook *)

(** Every iteration sits under its own number; a non-index key holds an
    iteration only while it is the one [startGeneration] has just opened. *)
Definition store_inv (s : ReasoningState) : Prop :=
  (forall k it, JsArray.get (iterations s) k = Some it -> number it = k)
  /\ (forall k it, JsArray.assoc k (JsArray.props (iterations s)) = Some it ->
                   JsArray.is_index k = false
                   /\ k = currentIteration s
                   /\ isGenerating it = true).

(** The hook is bound to the session of the socket it holds. *)
Definition bound_to_held (h : Hook) : Prop :=
  forall r, wsRef h = Some r ->
            exists w, heap h !! r = Some w
                      /\ connectedSessionRef h = Some (sid w).

(** The attempt counter stays within the budget, and so do the delays of
    the pending timers. *)
Definition within_budget (h : Hook) : Prop :=
  0 <= reconnectAttempts h <= maxReconnectAttempts
  /\ forall delay sid, (delay, sid) ∈ timers h ->
                       delay = 1000 \/ delay = 2000 \/ delay = 3000.

(** Every socket of [h] is still a socket of [h'], made for the same
    session. *)
Definition keeps_sessions (h h' : Hook) : Prop :=
  forall r w, heap h !! r = Some w ->
              exists w', heap h' !! r = Some w' /\ sid w' = sid w.

(** * Verification *)

(** ** Reading and writing JavaScript arrays *)

Section JsArrayFacts.
Context {A : Type}.
Implicit Types (a : JsArray.t A) (k : Z) (x : A).

Lemma write_lookup_eq (n : nat) x (l : list (option A)) :
  JsArray.write n x l !! n = Some (Some x).
Proof.
  unfold JsArray.write. destruct (Nat.ltb_spec n (length l)) as [Hlt|Hge].
  - by apply list_lookup_insert_eq.
  - rewrite lookup_app_r by lia.
    rewrite lookup_app_r by (rewrite length_replicate; lia).
    rewrite length_replicate.
    replace (n - length l - (n - length l))%nat with 0%nat by lia. done.
Qed.

Lemma write_lookup_ne (n m : nat) x (l : list (option A)) :
  n <> m -> mjoin (JsArray.write n x l !! m) = mjoin (l !! m).
Proof.
  intros Hne. unfold JsArray.write.
  destruct (Nat.ltb_spec n (length l)) as [Hlt|Hge].
  - by rewrite list_lookup_insert_ne.
  - destruct (decide (m < length l)%nat) as [Hm|Hm].
    + by rewrite lookup_app_l.
    + rewrite (lookup_ge_None_2 l m) by lia.
      rewrite lookup_app_r by lia.
      destruct (decide (m - length l < n - length l)%nat) as [Hh|Hh].
      * rewrite lookup_app_l by (rewrite length_replicate; lia).
        rewrite lookup_replicate_2 by lia. done.
      * rewrite lookup_app_r by (rewrite length_replicate; lia).
        rewrite length_replicate.
        destruct (m - length l - (n - length l))%nat as [|j] eqn:Hj; [lia|done].
Qed.

Lemma get_elems a k :
  JsArray.is_index k = true ->
  JsArray.get a k = mjoin (JsArray.elems a !! Z.to_nat k).
Proof.
  intros Hk. unfold JsArray.get. rewrite Hk.
  by destruct (JsArray.elems a !! Z.to_nat k) as [[?|]|].
Qed.

Lemma assoc_filter_ne k k' (ps : list (Z * A)) :
  k <> k' ->
  JsArray.assoc k' (List.filter (fun p => negb (fst p =? k)) ps)
  = JsArray.assoc k' ps.
Proof.
  intros Hne. induction ps as [|[j y] ps IH]; [done|]. cbn.
  destruct (Z.eqb_spec j k) as [->|Hj]; cbn.
  - destruct (Z.eqb_spec k k'); [done|]. exact IH.
  - destruct (Z.eqb_spec j k'); [done|]. exact IH.
Qed.

Lemma get_set_eq a k x : JsArray.get (JsArray.set a k x) k = Some x.
Proof.
  unfold JsArray.set. destruct (JsArray.is_index k) eqn:Hk.
  - rewrite get_elems by done. cbn. by rewrite write_lookup_eq.
  - unfold JsArray.get. rewrite Hk. cbn. by rewrite Z.eqb_refl.
Qed.

Lemma get_set_ne a k k' x :
  k <> k' -> JsArray.get (JsArray.set a k x) k' = JsArray.get a k'.
Proof.
  intros Hne. unfold JsArray.set.
  destruct (JsArray.is_index k) eqn:Hk, (JsArray.is_index k') eqn:Hk'.
  - rewrite !get_elems by done. cbn. apply write_lookup_ne.
    unfold JsArray.is_index in Hk, Hk'. lia.
  - unfold JsArray.get. by rewrite Hk'.
  - unfold JsArray.get. by rewrite Hk'.
  - unfold JsArray.get. rewrite Hk'. cbn.
    destruct (Z.eqb_spec k k'); [done|]. by apply assoc_filter_ne.
Qed.

Lemma get_spread a k :
  JsArray.get (JsArray.spread a) k
  = if JsArray.is_index k then JsArray.get a k else None.
Proof. unfold JsArray.get. by destruct (JsArray.is_index k). Qed.

Lemma get_spread_Some a k x :
  JsArray.get (JsArray.spread a) k = Some x ->
  JsArray.is_index k = true /\ JsArray.get a k = Some x.
Proof. rewrite get_spread. by destruct (JsArray.is_index k). Qed.

Lemma spread_set_index a k x :
  JsArray.is_index k = true ->
  JsArray.spread (JsArray.set (JsArray.spread a) k x)
  = JsArray.set (JsArray.spread a) k x.
Proof. intros Hk. unfold JsArray.set, JsArray.spread. by rewrite Hk. Qed.

End JsArrayFacts.

(** ** Role rotation *)

Lemma mod3_cases (i : Z) :
  (i mod 3 = 0 /\ (i + 1) mod 3 = 1 /\ (i + 2) mod 3 = 2 /\ (i + 3) mod 3 = 0
   /\ (i + 3 + 1) mod 3 = 1)
  \/ (i mod 3 = 1 /\ (i + 1) mod 3 = 2 /\ (i + 2) mod 3 = 0 /\ (i + 3) mod 3 = 1
      /\ (i + 3 + 1) mod 3 = 2)
  \/ (i mod 3 = 2 /\ (i + 1) mod 3 = 0 /\ (i + 2) mod 3 = 1 /\ (i + 3) mod 3 = 2
      /\ (i + 3 + 1) mod 3 = 0).
Proof.
  Z.div_mod_to_equations. lia.
Qed.

Lemma js_rem_nonneg (i : Z) : 0 <= i -> js_rem i 3 = i mod 3.
Proof. intros Hi. unfold js_rem. apply Z.rem_mod_nonneg; lia. Qed.

(** Below [2^53] in magnitude the sum is exact. *)
Lemma js_succ_safe (x : Z) : - 2 ^ 53 <= x < 2 ^ 53 -> js_succ x = x + 1.
Proof.
  intros [Hlo Hhi]. unfold js_succ.
  destruct (Z.leb_spec (- 2 ^ 53) x); [|lia].
  destruct (Z.ltb_spec x (2 ^ 53)); [done|lia].
Qed.

Lemma is_index_safe (i : Z) :
  JsArray.is_index i = true -> 0 <= i /\ - 2 ^ 53 <= i < 2 ^ 53.
Proof. unfold JsArray.is_index. lia. Qed.

(** [js_succ] is the binary64 sum at the numbers around which the
    rounding changes. *)
Lemma js_succ_is_binary64_sum :
  Forall (fun x => Z_of_float (float_of_Z x) = Some x
                   /\ Z_of_float (float_of_Z x + 1)%float = Some (js_succ x))
    [0; 1; -1; 41; 2 ^ 32; 2 ^ 53 - 2; 2 ^ 53 - 1; 2 ^ 53; 2 ^ 53 + 2;
     2 ^ 53 + 4; 2 ^ 53 + 6; 2 ^ 54 - 4; 2 ^ 54 - 2; 2 ^ 54; 2 ^ 54 + 4;
     2 ^ 54 + 8; 2 ^ 55; 2 ^ 55 + 8; 2 ^ 60; 2 ^ 62;
     - 2 ^ 53 + 1; - 2 ^ 53; - 2 ^ 53 - 2; - 2 ^ 53 - 4; - 2 ^ 53 - 6;
     - 2 ^ 54 + 2; - 2 ^ 54 + 4; - 2 ^ 54; - 2 ^ 54 - 4; - 2 ^ 54 - 8;
     - 2 ^ 55; - 2 ^ 55 - 8; - 2 ^ 60; - 2 ^ 62].
Proof. repeat constructor; vm_compute; reflexivity. Qed.

(** C3 (as stated, refuted): the council iteration [-1] reaches the rotation
    like any other number, and there the generator is [undefined] where the
    design names the model at index [(-1) mod 3 = 2]. *)
Lemma rotation_fails_at_council_iteration :
  ~ rotation_as_designed defaultConfig (-1).
Proof.
  intros (Hgen & _). vm_compute in Hgen. discriminate Hgen.
Qed.

(** Past the safe integers the rotation fails as well: at [2^53] the sum
    [i + 1] is rounded back to [i], and the generator and the critic are
    the same model. *)
Lemma rotation_fails_past_safe_integers :
  generator (getRotatedModels defaultConfig (2 ^ 53))
  = critic (getRotatedModels defaultConfig (2 ^ 53))
  /\ ~ rotation_as_designed defaultConfig (2 ^ 53).
Proof.
  split; [reflexivity|].
  intros (_ & Hcrit & _). vm_compute in Hcrit. discriminate Hcrit.
Qed.

(** C3 (amended): for every roster and every iteration number [i] such
    that [i] and [i + 3] are non-negative safe integers ([0 <= i] and
    [i + 3 < 2^53]), the generator is the model at index [i mod 3], the
    critic the model at index [(i + 1) mod 3], the model at index
    [(i + 2) mod 3] is shown as refiner, the three indices and the three
    displayed roles are pairwise distinct, and the assignment is the same
    at [i] and [i + 3]. *)
Theorem rotation_nonneg (config : ReasoningConfig) (i : Z) :
  0 <= i -> i + 3 < 2 ^ 53 -> rotation_as_designed config i.
Proof.
  intros Hi Hsafe. unfold rotation_as_designed, getRotatedModels, slotRole.
  rewrite (js_succ_safe i), (js_succ_safe (i + 3)) by lia.
  rewrite !js_rem_nonneg by lia.
  destruct (mod3_cases i) as [H|[H|H]];
    destruct H as (-> & -> & -> & -> & ->); cbn;
    repeat split; auto;
    repeat constructor; cbn; intros Hin;
    repeat (apply elem_of_cons in Hin as [Hin|Hin]; try discriminate Hin);
    inversion Hin.
Qed.

Lemma rotation_nonneg_witness :
  0 <= 4 /\ 4 + 3 < 2 ^ 53 /\ rotation_as_designed defaultConfig 4.
Proof.
  split; [lia|]. split; [lia|]. apply (rotation_nonneg defaultConfig 4); lia.
Defined.

(** ** Reset *)

(** C10: [reset] puts every field back to its initial value and keeps
    [config] as it is. *)
Theorem reset_keeps_config (s : ReasoningState) :
  reset s =
  {| sessionId := None; task := ""; context := ""; contextFiles := [];
     status := idle; iterations := JsArray.empty; currentIteration := 0;
     finalOutput := None; finalScore := None; streamingContent := "";
     streamingType := None; config := config s; wsConnected := false;
     needsWebSocket := false |}
  /\ reset s = assign (K.config (config s)) initialState.
Proof. split; reflexivity. Qed.

(** ** Store actions on the current iteration *)

Lemma get_update_at_eq (a : JsArray.t Iteration) cur f it :
  JsArray.get a cur = Some it ->
  JsArray.get (update_at cur f a) cur = Some (f it).
Proof. intros H. unfold update_at. rewrite H. apply get_set_eq. Qed.

Lemma get_update_at_ne (a : JsArray.t Iteration) cur f k :
  cur <> k -> JsArray.get (update_at cur f a) k = JsArray.get a k.
Proof.
  intros H. unfold update_at. destruct (JsArray.get a cur); [|done].
  by apply get_set_ne.
Qed.

Lemma update_at_absent (a : JsArray.t Iteration) cur f :
  JsArray.get a cur = None -> update_at cur f a = a.
Proof. intros H. unfold update_at. by rewrite H. Qed.

Lemma spread_update_at (a : JsArray.t Iteration) cur f :
  JsArray.spread (update_at cur f (JsArray.spread a))
  = update_at cur f (JsArray.spread a).
Proof.
  unfold update_at.
  destruct (JsArray.get (JsArray.spread a) cur) eqn:H; [|done].
  apply get_spread_Some in H as [Hk _]. by apply spread_set_index.
Qed.

(** An action that rewrites the current iteration by [f] and stays on it. *)
Lemma current_updated (s s' : ReasoningState) f it :
  current s = Some it ->
  iterations s' = update_at (currentIteration s) f (JsArray.spread (iterations s)) ->
  currentIteration s' = currentIteration s ->
  current s' = Some (f it).
Proof.
  unfold current. intros Hc Hi Hn. rewrite Hi, Hn, spread_update_at.
  by apply get_update_at_eq.
Qed.

Lemma current_appendGenerationChunk s c it :
  current s = Some it ->
  current (appendGenerationChunk c s)
  = Some (with_generation (String.append (streamingContent s) c) it).
Proof. intros H. by eapply current_updated. Qed.

Lemma current_completeGeneration s c it :
  current s = Some it ->
  current (completeGeneration c s)
  = Some (with_isGenerating false (with_generation c it)).
Proof.
  intros H.
  by apply (current_updated s _
              (fun it => with_isGenerating false (with_generation c it))).
Qed.

(** The council iteration [-1] is not an array index: [startGeneration]
    stores it as a property of the array it has just copied, where the
    store can still read it, but it is no element of the array and the copy
    made by the next action leaves it behind. *)
Lemma council_iteration_is_no_element :
  let s := startGeneration (-1) initialState in
  (number <$> JsArray.get (iterations s) (-1)) = Some (-1)
  /\ JsArray.length (iterations s) = 0
  /\ current s = None
  /\ iterations (appendGenerationChunk "x" s) = JsArray.empty.
Proof. vm_compute. by repeat split. Qed.

(** ** The dispatcher, case by case *)

Lemma dispatch_generation_chunk e h :
  ReasoningEvent.type e = "generation_chunk" ->
  dispatch e h = on_store (appendGenerationChunk (ReasoningEvent.content e)) h.
Proof. intros H. unfold dispatch. by rewrite H. Qed.

Lemma dispatch_generation_complete e h :
  ReasoningEvent.type e = "generation_complete" ->
  dispatch e h = on_store (completeGeneration (ReasoningEvent.content e)) h.
Proof. intros H. unfold dispatch. by rewrite H. Qed.

Lemma chunks_keep_current (chunks : list ReasoningEvent.t) h it :
  Forall (fun e => ReasoningEvent.type e = "generation_chunk") chunks ->
  current (store h) = Some it ->
  exists it',
    current (store (dispatch_all chunks h)) = Some it'
    /\ number it' = number it
    /\ currentIteration (store (dispatch_all chunks h))
       = currentIteration (store h).
Proof.
  intros Hall. revert h it.
  induction Hall as [|e chunks He _ IH]; intros h it Hc.
  - by exists it.
  - cbn. rewrite (dispatch_generation_chunk e h He).
    edestruct (IH (on_store (appendGenerationChunk (ReasoningEvent.content e)) h))
      as (it' & H1 & H2 & H3).
    { cbn. by apply current_appendGenerationChunk. }
    exists it'. by repeat split.
Qed.

(** The override on an iteration that is an element of the array (every
    iteration whose number is an array index): whatever chunks came before,
    [generation_complete] leaves the current iteration with exactly the
    content of the event as its generation, and not generating. *)
Theorem generation_complete_overrides_chunks
    (h : Hook) (chunks : list ReasoningEvent.t) (e : ReasoningEvent.t)
    (it : Iteration) :
  current (store h) = Some it ->
  Forall (fun ch => ReasoningEvent.type ch = "generation_chunk") chunks ->
  ReasoningEvent.type e = "generation_complete" ->
  let h' := dispatch e (dispatch_all chunks h) in
  exists it',
    current (store h') = Some it'
    /\ generation it' = ReasoningEvent.content e
    /\ isGenerating it' = false
    /\ number it' = number it
    /\ currentIteration (store h') = currentIteration (store h).
Proof.
  intros Hc Hall He h'. subst h'.
  destruct (chunks_keep_current chunks h it Hall Hc) as (it1 & H1 & H2 & H3).
  rewrite (dispatch_generation_complete e _ He). cbn.
  eexists. split; [by apply current_completeGeneration|].
  by repeat split.
Qed.

Lemma generation_complete_overrides_chunks_witness :
  let h := dispatch (event "generation_start" 0 "") (mount initialState) in
  let h' := dispatch (event "generation_complete" 0 "xyz")
              (dispatch_all [event "generation_chunk" 0 "ab";
                             event "generation_chunk" 0 "c"] h) in
  exists it',
    current (store h') = Some it'
    /\ generation it' = "xyz"
    /\ isGenerating it' = false
    /\ number it' = 0
    /\ currentIteration (store h') = 0.
Proof.
  intros h h'.
  apply (generation_complete_overrides_chunks h
           [event "generation_chunk" 0 "ab"; event "generation_chunk" 0 "c"]
           (event "generation_complete" 0 "xyz")
           {| number := 0; generation := "";
              generation_model := Some "anthropic/claude-3.7-sonnet";
              critique := None; critique_model := Some "openai/o3";
              isGenerating := true; isCritiquing := false |}).
  - reflexivity.
  - repeat constructor.
  - reflexivity.
Defined.

(** C2 (the code fails the claim on the council iteration): the open
    iteration can be the council iteration [-1], which the phase display
    and the export read from [iterations] like any other.  [startGeneration]
    stores it under the key [-1] of the array it has copied, which is a
    property and no element; the copy that every later action makes leaves
    it behind, [iterations[current]] is [undefined] there and the guarded
    write is skipped.  After chunks "ab", "c" and [generation_complete]
    with "xyz" the store holds no iteration at all: the council text is
    neither "xyz" nor anything else, and no [isGenerating] is cleared. *)
Theorem council_generation_is_lost :
  let opened :=
    dispatch (event "generation_start" (-1) "") (mount initialState) in
  let h' :=
    dispatch (event "generation_complete" (-1) "xyz")
      (dispatch_all [event "generation_chunk" (-1) "ab";
                     event "generation_chunk" (-1) "c"] opened) in
  (currentIteration (store opened) = -1
   /\ status (store opened) = running
   /\ (number <$> JsArray.get (iterations (store opened)) (-1)) = Some (-1)
   /\ (isGenerating <$> JsArray.get (iterations (store opened)) (-1)) = Some true)
  /\ (currentIteration (store h') = -1
      /\ iterations (store h') = JsArray.empty
      /\ JsArray.get (iterations (store h')) (-1) = None
      /\ current (store h') = None)
  /\ (forall c, iterations (completeGeneration c (store opened)) = JsArray.empty).
Proof.
  intros opened h'. split; [|split].
  - vm_compute. by repeat split.
  - vm_compute. by repeat split.
  - intros c. reflexivity.
Qed.

Lemma dispatch_generation_start e h :
  ReasoningEvent.type e = "generation_start" ->
  dispatch e h = on_store (startGeneration (ReasoningEvent.iteration e)) h.
Proof. intros H. unfold dispatch. by rewrite H. Qed.

Lemma current_startGeneration_fresh s i :
  JsArray.is_index i = true ->
  JsArray.get (JsArray.spread (iterations s)) i = None ->
  exists it,
    current (startGeneration i s) = Some it
    /\ generation it = ""
    /\ isGenerating it = true
    /\ streamingContent (startGeneration i s) = "".
Proof.
  intros Hi Habs. unfold current, startGeneration. cbn. rewrite Habs.
  rewrite spread_set_index by done. rewrite get_set_eq.
  eexists. by repeat split.
Qed.

(** ** Generation chunks *)

(** C6 (as stated, refuted): [generation_start] for iteration 0, a chunk
    ["ab"], [generation_start] for iteration 0 again (no
    [generation_complete] anywhere): iteration 0 is open with generation
    ["ab"], and the next chunk ["c"] leaves it with ["c"], not ["abc"]. *)
Lemma chunk_replaces_text_after_restart :
  let h := dispatch_all [event "generation_start" 0 "";
                         event "generation_chunk" 0 "ab";
                         event "generation_start" 0 ""] (mount initialState) in
  let h' := dispatch (event "generation_chunk" 0 "c") h in
  (generation <$> current (store h)) = Some "ab"
  /\ (isGenerating <$> current (store h)) = Some true
  /\ (generation <$> current (store h')) = Some "c"
  /\ (generation <$> current (store h')) <> Some (String.append "ab" "c").
Proof. vm_compute. repeat split; discriminate. Qed.

(** C6 (amended): a generation chunk with content [c] appends [c] to the
    streaming buffer and sets the current iteration's generation to the new
    buffer.  So when the generation equals the buffer before the chunk, it
    becomes its previous value with [c] appended, and equals the buffer
    again afterwards; a [generation_start] that creates the iteration
    establishes that equality. *)
Theorem generation_chunk_extends_buffer
    (h : Hook) (e : ReasoningEvent.t) (it : Iteration) :
  ReasoningEvent.type e = "generation_chunk" ->
  current (store h) = Some it ->
  let c := ReasoningEvent.content e in
  let s := store h in
  let s' := store (dispatch e h) in
  streamingContent s' = String.append (streamingContent s) c
  /\ currentIteration s' = currentIteration s
  /\ current s' = Some (with_generation (String.append (streamingContent s) c) it)
  /\ (generation it = streamingContent s ->
      exists it', current s' = Some it'
                  /\ generation it' = String.append (generation it) c
                  /\ generation it' = streamingContent s')
  /\ (forall h0 e0,
        ReasoningEvent.type e0 = "generation_start" ->
        JsArray.is_index (ReasoningEvent.iteration e0) = true ->
        JsArray.get (JsArray.spread (iterations (store h0)))
          (ReasoningEvent.iteration e0) = None ->
        exists it0, current (store (dispatch e0 h0)) = Some it0
                    /\ generation it0 = streamingContent (store (dispatch e0 h0))).
Proof.
  intros He Hc c s s'. subst c s s'.
  rewrite (dispatch_generation_chunk e h He). cbn [store on_store with_store].
  pose proof (current_appendGenerationChunk (store h)
                (ReasoningEvent.content e) it Hc) as Hnew.
  repeat split; try done.
  - intros Hsync. eexists. split; [exact Hnew|]. cbn. by rewrite Hsync.
  - intros h0 e0 He0 Hi Habs. rewrite (dispatch_generation_start e0 h0 He0).
    cbn [store on_store with_store].
    destruct (current_startGeneration_fresh (store h0) _ Hi Habs)
      as (it0 & H1 & H2 & _ & H4).
    exists it0. split; [done|]. by rewrite H2, H4.
Qed.

Lemma generation_chunk_extends_buffer_witness :
  let h := dispatch_all [event "generation_start" 0 "";
                         event "generation_chunk" 0 "Hel"] (mount initialState) in
  exists it,
    current (store h) = Some it
    /\ generation it = "Hel"
    /\ current (store (dispatch (event "generation_chunk" 0 "lo") h))
       = Some (with_generation "Hello" it).
Proof.
  intros h.
  exists {| number := 0; generation := "Hel";
            generation_model := Some "anthropic/claude-3.7-sonnet";
            critique := None; critique_model := Some "openai/o3";
            isGenerating := true; isCritiquing := false |}.
  split; [reflexivity|]. split; [reflexivity|].
  apply (generation_chunk_extends_buffer h (event "generation_chunk" 0 "lo") _
           eq_refl eq_refl).
Defined.

(** ** The scenario of the design *)

Lemma dispatch_session_started e h :
  ReasoningEvent.type e = "session_started" ->
  dispatch e h = on_store (setStatus running) h.
Proof. intros H. unfold dispatch. by rewrite H. Qed.

Lemma dispatch_critique_start e h :
  ReasoningEvent.type e = "critique_start" ->
  dispatch e h = on_store startCritique h.
Proof. intros H. unfold dispatch. by rewrite H. Qed.

Lemma dispatch_critique_complete e h c :
  ReasoningEvent.type e = "critique_complete" ->
  ReasoningEvent.critique e = Some c ->
  dispatch e h = on_store (completeCritique c) h.
Proof. intros H Hc. unfold dispatch. by rewrite H, Hc. Qed.

Lemma dispatch_session_complete e h :
  ReasoningEvent.type e = "session_complete" ->
  dispatch e h
  = with_isIntentionalCloseRef true
      (on_store (completeSession (ReasoningEvent.content e)
                   (or_zero (ReasoningEvent.score e))) h).
Proof. intros H. unfold dispatch. by rewrite H. Qed.

(** C1: the eight events of the scenario, dispatched in order from the
    initial store, leave one iteration, number 0, with generation
    ["Hello"], the critique of score 7.5, no flag set, and a completed
    session with final output ["Hello"] and final score 7.5. *)
Theorem scenario_hello
    (e1 e2 e3 e4 e5 e6 e7 e8 : ReasoningEvent.t) (c : CritiqueResult) :
  ReasoningEvent.type e1 = "session_started" ->
  ReasoningEvent.type e2 = "generation_start" ->
  ReasoningEvent.iteration e2 = 0 ->
  ReasoningEvent.type e3 = "generation_chunk" ->
  ReasoningEvent.content e3 = "Hel" ->
  ReasoningEvent.type e4 = "generation_chunk" ->
  ReasoningEvent.content e4 = "lo" ->
  ReasoningEvent.type e5 = "generation_complete" ->
  ReasoningEvent.content e5 = "Hello" ->
  ReasoningEvent.type e6 = "critique_start" ->
  ReasoningEvent.type e7 = "critique_complete" ->
  ReasoningEvent.critique e7 = Some c ->
  score c = 7.5%float ->
  ReasoningEvent.type e8 = "session_complete" ->
  ReasoningEvent.content e8 = "Hello" ->
  ReasoningEvent.score e8 = Some 7.5%float ->
  let s := store (dispatch_all [e1; e2; e3; e4; e5; e6; e7; e8]
                    (mount initialState)) in
  exists it,
    iterations s = JsArray.mk [Some it] []
    /\ number it = 0
    /\ generation it = "Hello"
    /\ critique it = Some c
    /\ score c = 7.5%float
    /\ isGenerating it = false
    /\ isCritiquing it = false
    /\ status s = completed
    /\ finalOutput s = Some "Hello"
    /\ finalScore s = Some 7.5%float.
Proof.
  intros T1 T2 I2 T3 C3 T4 C4 T5 C5 T6 T7 K7 S7 T8 C8 S8 s. subst s.
  unfold dispatch_all. cbn [fold_left].
  rewrite (dispatch_session_started e1 _ T1).
  rewrite (dispatch_generation_start e2 _ T2), I2.
  rewrite (dispatch_generation_chunk e3 _ T3), C3.
  rewrite (dispatch_generation_chunk e4 _ T4), C4.
  rewrite (dispatch_generation_complete e5 _ T5), C5.
  rewrite (dispatch_critique_start e6 _ T6).
  rewrite (dispatch_critique_complete e7 _ c T7 K7).
  rewrite (dispatch_session_complete e8 _ T8), C8, S8.
  exists {| number := 0; generation := "Hello";
            generation_model := Some "anthropic/claude-3.7-sonnet";
            critique := Some c; critique_model := Some "openai/o3";
            isGenerating := false; isCritiquing := false |}.
  split; [vm_compute; reflexivity|].
  do 3 (split; [reflexivity|]). split; [exact S7|].
  do 2 (split; [reflexivity|]).
  repeat split; vm_compute; reflexivity.
Qed.

Lemma scenario_hello_witness :
  let s := store (dispatch_all
                    [event "session_started" 0 "";
                     event "generation_start" 0 "";
                     event "generation_chunk" 0 "Hel";
                     event "generation_chunk" 0 "lo";
                     event "generation_complete" 0 "Hello";
                     event "critique_start" 0 "";
                     scored_event "critique_complete" "" (Some 7.5%float)
                       (Some sample_critique);
                     scored_event "session_complete" "Hello" (Some 7.5%float) None]
                    (mount initialState)) in
  exists it,
    iterations s = JsArray.mk [Some it] []
    /\ number it = 0
    /\ generation it = "Hello"
    /\ critique it = Some sample_critique
    /\ score sample_critique = 7.5%float
    /\ isGenerating it = false
    /\ isCritiquing it = false
    /\ status s = completed
    /\ finalOutput s = Some "Hello"
    /\ finalScore s = Some 7.5%float.
Proof.
  apply (scenario_hello
           (event "session_started" 0 "") (event "generation_start" 0 "")
           (event "generation_chunk" 0 "Hel") (event "generation_chunk" 0 "lo")
           (event "generation_complete" 0 "Hello") (event "critique_start" 0 "")
           (scored_event "critique_complete" "" (Some 7.5%float)
              (Some sample_critique))
           (scored_event "session_complete" "Hello" (Some 7.5%float) None)
           sample_critique); reflexivity.
Defined.

(** ** Messages that are ignored or dropped *)

Lemma eqb_unknown (t known : string) :
  t <> known -> (t =? known)%string = false.
Proof. intros H. by apply String.eqb_neq. Qed.

Lemma dispatch_unknown (data : ReasoningEvent.t) (h : Hook) :
  ReasoningEvent.type data ∉ known_types -> dispatch data h = h.
Proof.
  intros Hun. unfold dispatch.
  repeat (rewrite eqb_unknown;
          [| intros Heq; apply Hun; rewrite Heq; apply list_elem_of_In;
             cbn; tauto]).
  reflexivity.
Qed.

(** C8: a parsed event whose type is none of the thirteen known ones
    changes nothing: the handler returns, the store, the refs, the sockets,
    the timers and the transport calls are what they were; only the console
    has the line that names the event type. *)
Theorem unknown_event_changes_nothing
    (JSON_parse : string -> Completion ReasoningEvent.t)
    (payload : string) (data : ReasoningEvent.t) (h : Hook) :
  JSON_parse payload = Normal data ->
  ReasoningEvent.type data ∉ known_types ->
  dispatch data h = h
  /\ exists h',
      onmessage JSON_parse payload h = Normal h'
      /\ store h' = store h
      /\ heap h' = heap h
      /\ wsRef h' = wsRef h
      /\ connectedSessionRef h' = connectedSessionRef h
      /\ isIntentionalCloseRef h' = isIntentionalCloseRef h
      /\ reconnectAttempts h' = reconnectAttempts h
      /\ timers h' = timers h
      /\ calls h' = calls h
      /\ console h' = console h ++ [console_log ["WS Event:"; ReasoningEvent.type data]].
Proof.
  intros Hparse Hun. split; [by apply dispatch_unknown|].
  unfold onmessage. rewrite Hparse. cbn [bind try_catch].
  rewrite dispatch_unknown by done. eexists. split; [reflexivity|].
  by repeat split.
Qed.

Lemma unknown_event_changes_nothing_witness :
  let parse := fun _ : string => Normal (event "heartbeat" 0 "") in
  let h := mount initialState in
  dispatch (event "heartbeat" 0 "") h = h
  /\ exists h',
      onmessage parse "{}" h = Normal h'
      /\ store h' = store h
      /\ heap h' = heap h
      /\ wsRef h' = wsRef h
      /\ connectedSessionRef h' = connectedSessionRef h
      /\ isIntentionalCloseRef h' = isIntentionalCloseRef h
      /\ reconnectAttempts h' = reconnectAttempts h
      /\ timers h' = timers h
      /\ calls h' = calls h
      /\ console h' = console h ++ [console_log ["WS Event:"; "heartbeat"]].
Proof.
  intros parse h.
  apply (unknown_event_changes_nothing parse "{}" (event "heartbeat" 0 "") h).
  - reflexivity.
  - unfold known_types. cbn. intros Hin.
    repeat (apply elem_of_cons in Hin as [Hin|Hin]; [discriminate Hin|]).
    inversion Hin.
Defined.

(** C9: a payload that does not parse is logged and dropped.  The handler
    returns normally; the store, the refs, the sockets, the timers and the
    transport calls are unchanged, so nothing is closed; the console has one
    more error line.  The same holds for the whole [message] callback on
    any socket. *)
Theorem malformed_message_dropped
    (JSON_parse : string -> Completion ReasoningEvent.t)
    (payload : string) (err : Exn) (h : Hook) (r : nat) :
  JSON_parse payload = Throw err ->
  (exists h',
      onmessage JSON_parse payload h = Normal h'
      /\ store h' = store h
      /\ heap h' = heap h
      /\ wsRef h' = wsRef h
      /\ connectedSessionRef h' = connectedSessionRef h
      /\ isIntentionalCloseRef h' = isIntentionalCloseRef h
      /\ reconnectAttempts h' = reconnectAttempts h
      /\ timers h' = timers h
      /\ calls h' = calls h
      /\ console h' = console h ++
           [console_error ["Failed to parse WebSocket message:"; exn_name err]])
  /\ (let h'' := fire JSON_parse (Message r payload) h in
      store h'' = store h
      /\ heap h'' = heap h
      /\ wsRef h'' = wsRef h
      /\ connectedSessionRef h'' = connectedSessionRef h
      /\ isIntentionalCloseRef h'' = isIntentionalCloseRef h
      /\ reconnectAttempts h'' = reconnectAttempts h
      /\ timers h'' = timers h
      /\ calls h'' = calls h).
Proof.
  intros Hparse.
  assert (Hm : onmessage JSON_parse payload h
               = Normal (log_error ["Failed to parse WebSocket message:";
                                    exn_name err] h)).
  { unfold onmessage. by rewrite Hparse. }
  split.
  - eexists. split; [exact Hm|]. by repeat split.
  - cbn [fire]. rewrite Hm.
    by destruct (readyState <$> heap h !! r) as [[]|].
Qed.

Lemma malformed_message_dropped_witness :
  let parse := fun _ : string => Throw SyntaxError in
  let h := fire parse (Open 0) (connect "s1" (mount initialState)) in
  let h'' := fire parse (Message 0 "not json") h in
  store h'' = store h /\ heap h'' = heap h /\ calls h'' = calls h.
Proof.
  intros parse h h''.
  destruct (malformed_message_dropped parse "not json" SyntaxError h 0 eq_refl)
    as [_ (Hs & Hh & _ & _ & _ & _ & _ & Hc)].
  by repeat split.
Defined.

(** ** Bounded reconnection *)

Lemma scheduled_app (h h' : Hook) (new : list (Z * string)) :
  timers h' = timers h ++ new -> scheduled h h' = new.
Proof. intros H. unfold scheduled. rewrite H. apply drop_app_length. Qed.






(** ** One transport at a time *)

Section OneTransport.
Variable JSON_parse : string -> Completion ReasoningEvent.t.

Lemma only_current_live_frame h h' :
  heap h' = heap h -> wsRef h' = wsRef h ->
  only_current_live h -> only_current_live h'.
Proof. unfold only_current_live. intros -> ->. done. Qed.

Lemma no_live_only_current h : no_live h -> only_current_live h.
Proof.
  intros Hno r w Hr Hl. rewrite (Hno r w Hr) in Hl. discriminate.
Qed.

Lemma only_current_live_alter h f r :
  (forall w, heap h !! r = Some w -> is_live (f w) = true -> is_live w = true) ->
  only_current_live h ->
  only_current_live (with_heap (alter f r (heap h)) h).
Proof.
  intros Hf Hinv r' w'. cbn. intros Hr' Hl.
  destruct (decide (r = r')) as [<-|Hne].
  - rewrite list_lookup_alter_eq in Hr'.
    destruct (heap h !! r) as [w|] eqn:Hr; [|done].
    injection Hr' as <-. apply (Hinv r w Hr). by apply Hf.
  - rewrite list_lookup_alter_ne in Hr' by done. by apply (Hinv r' w').
Qed.

Lemma closing_not_live w : is_live (closing w) = false.
Proof. by destruct w as [? []]. Qed.

(** After [wsRef.current.close(); wsRef.current = null] no socket is open
    or connecting. *)
Lemma close_current_no_live h :
  only_current_live h ->
  no_live (with_wsRef None (close_current h)).
Proof.
  intros Hinv r w. unfold close_current.
  destruct (wsRef h) as [cur|] eqn:Hcur; cbn; intros Hr.
  - destruct (decide (cur = r)) as [<-|Hne].
    + rewrite list_lookup_alter_eq in Hr.
      destruct (heap h !! cur) as [w0|]; [|done].
      injection Hr as <-. apply closing_not_live.
    + rewrite list_lookup_alter_ne in Hr by done.
      destruct (is_live w) eqn:Hl; [|done].
      specialize (Hinv r w Hr Hl). congruence.
  - destruct (is_live w) eqn:Hl; [|done].
    specialize (Hinv r w Hr Hl). congruence.
Qed.

Lemma not_connected_no_live h :
  only_current_live h ->
  current_readyState h <> Some OPEN ->
  current_readyState h <> Some CONNECTING ->
  no_live h.
Proof.
  intros Hinv Hopen Hconn r w Hr. destruct (is_live w) eqn:Hl; [|done].
  exfalso. pose proof (Hinv r w Hr Hl) as Hcur.
  unfold current_readyState in Hopen, Hconn. rewrite Hcur, Hr in Hopen, Hconn.
  cbn in Hopen, Hconn. unfold is_live in Hl.
  destruct (readyState w); congruence.
Qed.

Lemma connect_only_current_live sid h :
  only_current_live h -> only_current_live (connect sid h).
Proof.
  intros Hinv. unfold connect.
  destruct (current_readyState h) as [[]|] eqn:Hst; try exact Hinv.
  all: assert (Hno : no_live h)
         by (apply not_connected_no_live; [done|by rewrite Hst..]).
  all: intros r w; cbn; intros Hr Hl.
  all: apply lookup_snoc_Some in Hr as [[Hlt Hr]|[-> _]]; [|done].
  all: rewrite (Hno r w Hr) in Hl; discriminate.
Qed.

Lemma dispatch_frame data h :
  heap (dispatch data h) = heap h /\ wsRef (dispatch data h) = wsRef h.
Proof. unfold dispatch. repeat case_match; done. Qed.

Lemma onmessage_frame payload h :
  heap (result h (onmessage JSON_parse payload h)) = heap h
  /\ wsRef (result h (onmessage JSON_parse payload h)) = wsRef h.
Proof.
  unfold onmessage. destruct (JSON_parse payload) as [data|err]; cbn; [|done].
  apply (dispatch_frame data (log ["WS Event:"; ReasoningEvent.type data] h)).
Qed.

Lemma onclose_frame sid ev h :
  heap (onclose sid ev h) = heap h /\ wsRef (onclose sid ev h) = wsRef h.
Proof. unfold onclose. by case_match. Qed.

Lemma effect_only_current_live sessionId shouldConnect h :
  only_current_live h -> only_current_live (effect sessionId shouldConnect h).
Proof.
  intros Hinv. unfold effect.
  assert (Hclosed : no_live (with_wsRef None
            (close_current (with_isIntentionalCloseRef true h)))).
  { by apply close_current_no_live. }
  destruct (truthy sessionId) as [sid'|], shouldConnect;
    repeat case_match;
    first
      [ exact Hinv
      | apply connect_only_current_live;
        first [ apply no_live_only_current; exact Hclosed | exact Hinv ]
      | apply no_live_only_current; exact Hclosed ].
Qed.

Lemma unmount_only_current_live h :
  only_current_live h -> only_current_live (unmount h).
Proof.
  intros Hinv. unfold unmount. case_match.
  - apply no_live_only_current.
    by apply (close_current_no_live
                (with_isIntentionalCloseRef true
                   (log ["Component unmounting, cleaning up WebSocket"] h))).
  - exact Hinv.
Qed.

Lemma fire_only_current_live cb h :
  only_current_live h -> only_current_live (fire JSON_parse cb h).
Proof.
  intros Hinv. destruct cb as [sessionId shouldConnect| |r|r payload|r|r ev|n|action];
    cbn [fire].
  - by apply effect_only_current_live.
  - by apply unmount_only_current_live.
  - destruct (heap h !! r) as [w|] eqn:Hr; cbn; [|done].
    destruct (readyState w) eqn:Hst; try done.
    apply (only_current_live_frame (with_readyState r OPEN h)); [done..|].
    apply only_current_live_alter; [|done].
    intros w' Hw' _. rewrite Hr in Hw'. injection Hw' as <-.
    unfold is_live. by rewrite Hst.
  - destruct (readyState <$> heap h !! r) as [[]|]; try done;
      destruct (onmessage_frame payload h) as [Hh Hw];
      by apply (only_current_live_frame h).
  - by destruct (heap h !! r).
  - destruct (heap h !! r) as [w|] eqn:Hr; [|done].
    assert (Hdead : only_current_live (with_readyState r CLOSED h)).
    { by apply only_current_live_alter. }
    destruct (readyState w); try done;
      destruct (onclose_frame (sid w) ev (with_readyState r CLOSED h)) as [Hh Hw];
      by apply (only_current_live_frame (with_readyState r CLOSED h)).
  - destruct (timers h !! n) as [[delay sid]|]; [|done].
    by apply connect_only_current_live.
  - done.
Qed.

Lemma run_only_current_live cbs h :
  only_current_live h -> only_current_live (run JSON_parse cbs h).
Proof.
  revert h. induction cbs as [|cb cbs IH]; intros h Hinv; [done|].
  cbn. apply IH. by apply fire_only_current_live.
Qed.

Lemma only_current_one_live h : only_current_live h -> one_live_transport h.
Proof.
  intros Hinv r1 r2 w1 w2 H1 H2 L1 L2.
  pose proof (Hinv r1 w1 H1 L1). pose proof (Hinv r2 w2 H2 L2). congruence.
Qed.

End OneTransport.

Lemma mount_only_current_live s : only_current_live (mount s).
Proof. intros r w Hr. cbn in Hr. by rewrite lookup_nil in Hr. Qed.

Section ValidRef.
Variable JSON_parse : string -> Completion ReasoningEvent.t.

Lemma wsRef_valid_frame h h' :
  length (heap h') = length (heap h) -> wsRef h' = wsRef h ->
  wsRef_valid h -> wsRef_valid h'.
Proof. unfold wsRef_valid. intros -> ->. done. Qed.

Lemma wsRef_valid_null h : wsRef h = None -> wsRef_valid h.
Proof. intros Hnull r Hr. congruence. Qed.

Lemma connect_wsRef_valid sid h : wsRef_valid h -> wsRef_valid (connect sid h).
Proof.
  intros Hv. unfold connect.
  destruct (current_readyState h) as [[]|]; try exact Hv.
  all: intros r; cbn; intros [= <-]; rewrite length_app; cbn; lia.
Qed.

Lemma effect_wsRef_valid sessionId shouldConnect h :
  wsRef_valid h -> wsRef_valid (effect sessionId shouldConnect h).
Proof.
  intros Hv. unfold effect.
  destruct (truthy sessionId) as [sid'|], shouldConnect;
    repeat case_match;
    first
      [ exact Hv
      | apply connect_wsRef_valid;
        first [ by apply wsRef_valid_null | exact Hv ]
      | by apply wsRef_valid_null
      | intros r Hr; apply (Hv r Hr) ].
Qed.

Lemma unmount_wsRef_valid h : wsRef_valid h -> wsRef_valid (unmount h).
Proof.
  intros Hv. unfold unmount. case_match.
  - by apply wsRef_valid_null.
  - exact Hv.
Qed.

Lemma fire_wsRef_valid cb h :
  wsRef_valid h -> wsRef_valid (fire JSON_parse cb h).
Proof.
  intros Hv. destruct cb as [sessionId shouldConnect| |r|r payload|r|r ev|n|action];
    cbn [fire].
  - by apply effect_wsRef_valid.
  - by apply unmount_wsRef_valid.
  - destruct (heap h !! r) as [w|]; cbn; [|done].
    destruct (readyState w); try done.
    apply (wsRef_valid_frame h); [|done..]. cbn. apply length_alter.
  - destruct (readyState <$> heap h !! r) as [[]|]; try done;
      destruct (onmessage_frame JSON_parse payload h) as [Hh Hw];
      apply (wsRef_valid_frame h); by rewrite ?Hh.
  - by destruct (heap h !! r).
  - destruct (heap h !! r) as [w|]; [|done].
    destruct (readyState w); try done;
      destruct (onclose_frame (sid w) ev (with_readyState r CLOSED h)) as [Hh Hw];
      apply (wsRef_valid_frame h); rewrite ?Hh, ?Hw; try done;
      cbn; apply length_alter.
  - destruct (timers h !! n) as [[delay sid]|]; [|done].
    by apply connect_wsRef_valid.
  - done.
Qed.

Lemma run_wsRef_valid cbs h :
  wsRef_valid h -> wsRef_valid (run JSON_parse cbs h).
Proof.
  revert h. induction cbs as [|cb cbs IH]; intros h Hv; [done|].
  cbn. apply IH. by apply fire_wsRef_valid.
Qed.

End ValidRef.

Lemma effect_switch (h : Hook) (sessionId : string) (old : nat) :
  sessionId <> "" ->
  wsRef h = Some old ->
  connectedSessionRef h <> Some sessionId ->
  effect (Some sessionId) true h
  = with_connectedSessionRef (Some sessionId)
      (with_wsRef (Some (length (heap h)))
         (with_calls (calls h ++ [ws_close old true;
                                  ws_new (length (heap h)) sessionId])
            (with_heap (alter closing old (heap h)
                        ++ [{| sid := sessionId; readyState := CONNECTING |}])
               (with_isIntentionalCloseRef false
                  (log ["Connecting WebSocket for session:"; sessionId]
                     (with_reconnectAttempts 0 h)))))).
Proof.
  intros Hne Hws Hbound. unfold effect. cbn [truthy].
  rewrite (eqb_unknown sessionId "" Hne).
  rewrite (bool_decide_eq_false_2 _ Hbound). cbn [andb negb].
  rewrite bool_decide_eq_true_2 by (by rewrite Hws). cbn [andb].
  unfold connect, current_readyState, close_current. cbn. rewrite Hws. cbn.
  rewrite length_alter, <- app_assoc. reflexivity.
Qed.

(** C7: in every state that the event loop can reach, any two sockets
    that are open or connecting are one and the same socket, so there are
    never two of them for different session ids; and when the effect runs
    for a session id other than the bound one while a socket is held, it
    calls [close()] on that socket with [isIntentionalCloseRef] set, and only
    then makes the socket of the new session: the old socket is no longer
    open or connecting, the new one is connecting and bound. *)
Theorem session_switch_closes_before_opening
    (JSON_parse : string -> Completion ReasoningEvent.t)
    (cbs : list Callback) (s0 : ReasoningState) :
  let h := run JSON_parse cbs (mount s0) in
  one_live_transport h
  /\ (forall r1 r2 w1 w2,
        heap h !! r1 = Some w1 -> heap h !! r2 = Some w2 ->
        is_live w1 = true -> is_live w2 = true -> sid w1 = sid w2)
  /\ (forall (sessionId : string) (old : nat),
        sessionId <> "" ->
        wsRef h = Some old ->
        connectedSessionRef h <> Some sessionId ->
        let h' := effect (Some sessionId) true h in
        calls h' = calls h ++ [ws_close old true;
                               ws_new (length (heap h)) sessionId]
        /\ (forall w, heap h' !! old = Some w -> is_live w = false)
        /\ heap h' !! length (heap h)
           = Some {| sid := sessionId; readyState := CONNECTING |}
        /\ wsRef h' = Some (length (heap h))
        /\ connectedSessionRef h' = Some sessionId
        /\ one_live_transport h').
Proof.
  intros h.
  assert (Hinv : only_current_live h).
  { apply run_only_current_live, mount_only_current_live. }
  assert (Hvalid : wsRef_valid h).
  { by apply run_wsRef_valid, wsRef_valid_null. }
  pose proof (only_current_one_live h Hinv) as Hone.
  split; [exact Hone|]. split.
  { intros r1 r2 w1 w2 H1 H2 L1 L2.
    pose proof (Hone r1 r2 w1 w2 H1 H2 L1 L2) as ->. congruence. }
  intros sessionId old Hne Hws Hbound h'.
  assert (Hone' : one_live_transport h').
  { apply only_current_one_live. by apply effect_only_current_live. }
  subst h'. rewrite (effect_switch h sessionId old Hne Hws Hbound) in *. cbn.
  split; [done|]. split.
  { intros w Hw. pose proof (Hvalid old Hws) as Hlt.
    rewrite lookup_app_l in Hw by (by rewrite length_alter).
    rewrite list_lookup_alter_eq in Hw.
    destruct (heap h !! old) as [w0|]; [|done].
    injection Hw as <-. apply closing_not_live. }
  split.
  { rewrite lookup_app_r by (by rewrite length_alter).
    by rewrite length_alter, Nat.sub_diag. }
  done.
Qed.

Lemma session_switch_closes_before_opening_witness :
  let h := run no_parse [Effect (Some "s1") true; Open 0] (mount initialState) in
  let h' := effect (Some "s2") true h in
  calls h' = calls h ++ [ws_close 0 true; ws_new 1 "s2"]
  /\ (readyState <$> heap h' !! 0%nat) = Some CLOSING
  /\ one_live_transport h'.
Proof.
  intros h h'.
  destruct (session_switch_closes_before_opening no_parse
              [Effect (Some "s1") true; Open 0] initialState)
    as (_ & _ & Hswitch).
  destruct (Hswitch "s2" 0%nat) as (Hcalls & _ & _ & _ & _ & Hone).
  - discriminate.
  - reflexivity.
  - discriminate.
  - split; [exact Hcalls|]. split; [reflexivity | exact Hone].
Defined.

(** ** Flags and critiques along sequences of store actions *)

(** C5 (as stated, refuted): [startGeneration(0)] then [startCritique()]
    leaves iteration 0 with both flags set; [startGeneration(0)] then
    [completeCritique] writes a critique on an iteration whose generation is
    empty. *)
Lemma flags_and_critique_unguarded :
  ~ at_most_one_flag (perform_all [StartGeneration 0; StartCritique] initialState)
  /\ ~ critique_after_generation
        (perform_all [StartGeneration 0] initialState)
        (perform_all [StartGeneration 0; CompleteCritique sample_critique]
           initialState).
Proof.
  split.
  - intros H.
    destruct (H 0 0 _ _ flag_isGenerating flag_isCritiquing
                eq_refl eq_refl eq_refl eq_refl) as [_ Hf].
    discriminate Hf.
  - intros H.
    destruct (H 0 _ eq_refl) as [Hgen|(it & Hit & Hcrit)].
    + discriminate.
    + by apply Hgen.
    + vm_compute in Hit. injection Hit as <-. discriminate Hcrit.
Qed.

Lemma get_updated (a : JsArray.t Iteration) cur f k it' :
  JsArray.get (update_at cur f (JsArray.spread a)) k = Some it' ->
  (k = cur /\ exists it, JsArray.get (JsArray.spread a) cur = Some it
                         /\ JsArray.get a k = Some it /\ it' = f it)
  \/ (k <> cur /\ JsArray.get a k = Some it').
Proof.
  intros H. destruct (decide (cur = k)) as [->|Hne].
  - destruct (JsArray.get (JsArray.spread a) k) as [it|] eqn:Hk.
    + rewrite (get_update_at_eq _ _ _ _ Hk) in H. injection H as <-.
      left. split; [done|]. exists it.
      by destruct (get_spread_Some _ _ _ Hk).
    + rewrite update_at_absent in H by done. congruence.
  - rewrite get_update_at_ne in H by done.
    right. split; [done|]. by destruct (get_spread_Some _ _ _ H).
Qed.

Lemma current_fmap (s s' : ReasoningState) f :
  iterations s' = update_at (currentIteration s) f (JsArray.spread (iterations s)) ->
  currentIteration s' = currentIteration s ->
  current s' = f <$> current s.
Proof.
  intros Hi Hn. destruct (current s) as [it|] eqn:Hc.
  - by apply (current_updated s s' f it).
  - unfold current in *. rewrite Hi, Hn, update_at_absent by done.
    by rewrite get_spread, Hc, Tauto.if_same.
Qed.

Lemma get_started s i k it' :
  JsArray.get (iterations (startGeneration i s)) k = Some it' ->
  (k = i /\ isGenerating it' = true
   /\ ((isCritiquing it' = false /\ critique it' = None)
       \/ exists it, JsArray.get (iterations s) k = Some it
                     /\ it' = with_isGenerating true it))
  \/ (k <> i /\ JsArray.get (iterations s) k = Some it').
Proof.
  unfold startGeneration. cbn. intros H.
  destruct (decide (i = k)) as [->|Hne].
  - left. split; [done|].
    destruct (JsArray.get (JsArray.spread (iterations s)) k) as [it|] eqn:Hk;
      rewrite get_set_eq in H; injection H as <-; cbn.
    + split; [done|]. right. exists it.
      by destruct (get_spread_Some _ _ _ Hk).
    + split; [done|]. by left.
  - right. split; [done|].
    destruct (JsArray.get (JsArray.spread (iterations s)) i);
      rewrite get_set_ne in H by done;
      by destruct (get_spread_Some _ _ _ H).
Qed.

Lemma nonempty_true (c : string) : nonempty c = true -> c <> "".
Proof.
  unfold nonempty. intros H ->. discriminate H.
Qed.

Lemma current_get s it :
  current s = Some it ->
  JsArray.get (iterations s) (currentIteration s) = Some it.
Proof. intros H. by destruct (get_spread_Some _ _ _ H). Qed.

Lemma perform_rewrites a f s :
  rewrites a = Some f ->
  iterations (perform a s)
  = update_at (currentIteration s) f (JsArray.spread (iterations s))
  /\ currentIteration (perform a s) = currentIteration s.
Proof. destruct a; cbn; intros [= <-]; done. Qed.

Lemma perform_chunk chunk s :
  iterations (perform (AppendGenerationChunk chunk) s)
  = update_at (currentIteration s)
      (with_generation (String.append (streamingContent s) chunk))
      (JsArray.spread (iterations s))
  /\ currentIteration (perform (AppendGenerationChunk chunk) s)
     = currentIteration s.
Proof. done. Qed.

(** What a step does to the iteration under key [k]: it is left as it
    was, or it is the current one and was rewritten by [f], or (for
    [startGeneration]) it is the one just opened. *)
Lemma rewritten_cases a f s k it' :
  rewrites a = Some f ->
  JsArray.get (iterations (perform a s)) k = Some it' ->
  (k = currentIteration s
   /\ exists it, current s = Some it
                 /\ JsArray.get (iterations s) k = Some it /\ it' = f it)
  \/ (k <> currentIteration s /\ JsArray.get (iterations s) k = Some it').
Proof.
  intros Hf H. destruct (perform_rewrites a f s Hf) as [Hi _].
  rewrite Hi in H. by apply get_updated in H.
Qed.

Lemma rewritten_current a f s :
  rewrites a = Some f -> current (perform a s) = f <$> current s.
Proof.
  intros Hf. destruct (perform_rewrites a f s Hf) as [Hi Hn].
  by apply current_fmap.
Qed.

Lemma phase_inv_at_most_one p s : phase_inv p s -> at_most_one_flag s.
Proof.
  intros Hp k1 k2 it1 it2 f1 f2 H1 H2 F1 F2.
  destruct p; cbn in Hp.
  - destruct (Hp k1 it1 H1) as [G C]. destruct f1; cbn in F1; congruence.
  - destruct (Hp k1 it1 H1) as [C1 G1], (Hp k2 it2 H2) as [C2 G2].
    destruct f1, f2; cbn in F1, F2; try congruence.
    split; [|done]. rewrite G1, G2; done.
  - destruct Hp as [Hq _].
    destruct (Hq k1 it1 H1) as [G C]. destruct f1; cbn in F1; congruence.
  - destruct Hp as [Hp _].
    destruct (Hp k1 it1 H1) as [G1 C1], (Hp k2 it2 H2) as [G2 C2].
    destruct f1, f2; cbn in F1, F2; try congruence.
    split; [|done]. rewrite C1, C2; done.
Qed.

Lemma chunk_cases chunk s k it' :
  JsArray.get (iterations (perform (AppendGenerationChunk chunk) s)) k = Some it' ->
  (k = currentIteration s
   /\ exists it, JsArray.get (iterations s) k = Some it
                 /\ isGenerating it' = isGenerating it
                 /\ isCritiquing it' = isCritiquing it
                 /\ critique it' = critique it)
  \/ (k <> currentIteration s /\ JsArray.get (iterations s) k = Some it').
Proof.
  intros H. destruct (perform_chunk chunk s) as [Hi _]. rewrite Hi in H.
  apply get_updated in H as [(-> & it & _ & Hit & ->)|H]; [|by right].
  left. split; [done|]. by exists it.
Qed.

Ltac step_cases Hk :=
  first
    [ apply get_started in Hk
        as [(-> & ? & [[? ?]|(? & ? & ->)])|(? & ?)]
    | apply chunk_cases in Hk as [(-> & ? & ? & ? & ? & ?)|(? & ?)]
    | match type of Hk with
      | JsArray.get (iterations (perform ?a ?st)) _ = _ =>
          let f := eval cbn in (rewrites a) in
          match f with
          | Some ?g =>
              apply (rewritten_cases a g st _ _ eq_refl) in Hk
                as [(-> & ? & ? & ? & ->)|(? & ?)]
          end
      end ].

(** Use what is known of every iteration, and of the current one, at the
    iterations at hand. *)
Ltac use_inv :=
  repeat match goal with
    | Hall : forall k it, JsArray.get (iterations ?s) k = Some it -> _,
      H : JsArray.get (iterations ?s) ?k = Some ?it |- _ =>
        pose proof (Hall k it H); clear H
    | Hgen : forall it, current ?s = Some it -> _,
      H : current ?s = Some ?it |- _ =>
        pose proof (Hgen it H); clear H
    end;
  repeat match goal with
    | Hall : forall k it, JsArray.get _ k = Some it -> _ |- _ => clear Hall
    | Hgen : forall it, current _ = Some it -> _ |- _ => clear Hgen
    end.

(** A step in protocol order takes the invariant of its phase to the
    invariant of the next. *)
Lemma step_phase_inv p a p' s :
  next p a = Some p' -> phase_inv p s -> phase_inv p' (perform a s).
Proof.
  intros Hn Hp.
  destruct a as [i|chunk|content| |chunk|c|content sc c|output sc], p;
    cbn in Hn; try discriminate Hn;
    try (destruct (nonempty content) eqn:Hne; [|discriminate Hn];
         apply nonempty_true in Hne);
    injection Hn as <-; cbn [phase_inv] in *.
  all: try exact Hp.
  all: unfold quiet, generated in *.
  all: repeat match goal with
         | |- _ /\ _ => split
         | |- forall k it, JsArray.get _ k = Some it -> _ =>
             let Hk := fresh "Hk" in intros ? ? Hk; step_cases Hk
         | |- forall it, current (perform ?a ?st) = Some it -> _ =>
             let Hc := fresh "Hc" in
             intros ? Hc; rewrite (rewritten_current a _ st eq_refl) in Hc;
             destruct (current st) eqn:?; [|discriminate Hc];
             injection Hc as <-
         end.
  all: try destruct Hp.
  all: use_inv; cbn in *; try solve [intuition congruence].
  all: try solve [destruct (isGenerating it), (isCritiquing it);
                  intuition congruence].
  all: match goal with
       | H : forall it, Some ?i = Some it -> _ |- _ => exact (H i eq_refl)
       end.
Qed.

(** A step in protocol order writes a critique only on an iteration whose
    generation is not empty. *)
Lemma step_critique_after_generation p a p' s :
  next p a = Some p' -> phase_inv p s ->
  critique_after_generation s (perform a s).
Proof.
  intros Hn Hp k it' Hk Hcrit.
  destruct a as [i|chunk|content| |chunk|c|content sc c|output sc].
  - apply get_started in Hk as [(-> & _ & [[_ Hnone]|(it & Hit & ->)])|(_ & Hit)].
    + done.
    + right. by exists it.
    + right. by exists it'.
  - apply chunk_cases in Hk as [(-> & it & Hit & _ & _ & Hc)|(_ & Hit)];
      right; eauto.
  - apply (rewritten_cases (CompleteGeneration content) _ s _ _ eq_refl) in Hk
      as [(-> & it & _ & Hit & ->)|(_ & Hit)]; right; eauto.
  - apply (rewritten_cases StartCritique _ s _ _ eq_refl) in Hk
      as [(-> & it & _ & Hit & ->)|(_ & Hit)]; right; eauto.
  - right. by exists it'.
  - apply (rewritten_cases (CompleteCritique c) _ s _ _ eq_refl) in Hk
      as [(-> & it & Hcur & Hit & ->)|(_ & Hit)]; [|right; eauto].
    left. destruct p; cbn in Hn; try discriminate Hn.
    destruct Hp as [_ Hgen]. exact (Hgen it Hcur).
  - apply (rewritten_cases (CompleteIteration content sc c) _ s _ _ eq_refl) in Hk
      as [(-> & it & Hcur & Hit & ->)|(_ & Hit)]; [|right; eauto].
    left. cbn. apply nonempty_true.
    destruct p; cbn in Hn; try discriminate Hn;
      by destruct (nonempty content).
  - right. by exists it'.
Qed.

Lemma follow_phase_inv acts p p' s :
  follow p acts = Some p' -> phase_inv p s -> phase_inv p' (perform_all acts s).
Proof.
  revert p s. induction acts as [|a acts IH]; intros p s Hf Hp; cbn in *.
  - by injection Hf as <-.
  - destruct (next p a) as [p1|] eqn:Hn; [|discriminate Hf].
    apply (IH p1); [done|]. by apply (step_phase_inv p a).
Qed.

Lemma initial_quiet : phase_inv Idle initialState.
Proof.
  intros k it Hk. unfold JsArray.get in Hk. cbn in Hk.
  rewrite lookup_nil in Hk. by destruct (JsArray.is_index k).
Qed.

(** C5 (amended): along every sequence of store actions that, from the
    initial state, follows the order of the protocol's rounds, at most one
    of the flags [isGenerating] and [isCritiquing] is set across all
    iterations in every state reached, and every further step in that order
    writes a critique only on an iteration whose generation is a non-empty
    string. *)
Theorem flags_and_critique_in_protocol_order
    (acts : list Action) (p : Phase) :
  follow Idle acts = Some p ->
  let s := perform_all acts initialState in
  at_most_one_flag s
  /\ forall a p', next p a = Some p' ->
                  critique_after_generation s (perform a s)
                  /\ at_most_one_flag (perform a s).
Proof.
  intros Hf s.
  assert (Hp : phase_inv p s).
  { by apply (follow_phase_inv acts Idle), initial_quiet. }
  split; [by apply (phase_inv_at_most_one p)|].
  intros a p' Hn. split.
  - by apply (step_critique_after_generation p a p').
  - apply (phase_inv_at_most_one p'). by apply (step_phase_inv p a).
Qed.

Lemma flags_and_critique_in_protocol_order_witness :
  let s := perform_all [StartGeneration 0; AppendGenerationChunk "Hel";
                        AppendGenerationChunk "lo"; CompleteGeneration "Hello";
                        StartCritique] initialState in
  at_most_one_flag s
  /\ critique_after_generation s (perform (CompleteCritique sample_critique) s).
Proof.
  intros s.
  destruct (flags_and_critique_in_protocol_order
              [StartGeneration 0; AppendGenerationChunk "Hel";
               AppendGenerationChunk "lo"; CompleteGeneration "Hello";
               StartCritique] Critiquing eq_refl) as [Hone Hstep].
  split; [exact Hone|].
  exact (proj1 (Hstep (CompleteCritique sample_critique) Generated eq_refl)).
Defined.

(** * Further properties of the store *)

Lemma write_write (n : nat) (x y : Iteration) (l : list (option Iteration)) :
  (n < length l)%nat ->
  JsArray.write n x (JsArray.write n y l) = JsArray.write n x l.
Proof.
  intros Hlt. unfold JsArray.write.
  destruct (Nat.ltb_spec n (length l)); [|lia].
  rewrite length_insert.
  destruct (Nat.ltb_spec n (length l)); [|lia].
  apply list_insert_insert_eq.
Qed.

Lemma get_index_lt (a : JsArray.t Iteration) k it :
  JsArray.is_index k = true -> JsArray.get a k = Some it ->
  (Z.to_nat k < length (JsArray.elems a))%nat
  /\ JsArray.elems a !! Z.to_nat k = Some (Some it).
Proof.
  intros Hk. unfold JsArray.get. rewrite Hk.
  destruct (JsArray.elems a !! Z.to_nat k) as [[x|]|] eqn:Hl; try done.
  intros [= ->]. split; [|done]. by apply lookup_lt_Some in Hl.
Qed.

(** Rewriting the current iteration twice is rewriting it once when the
    second rewrite overrides the first. *)
Lemma update_at_twice (a : JsArray.t Iteration) cur f g :
  (forall it, f (g it) = f it) ->
  update_at cur f (JsArray.spread (update_at cur g (JsArray.spread a)))
  = update_at cur f (JsArray.spread a).
Proof.
  intros Hfg. rewrite spread_update_at.
  destruct (JsArray.get (JsArray.spread a) cur) as [it|] eqn:Hc.
  - destruct (get_spread_Some _ _ _ Hc) as [Hk _].
    destruct (get_index_lt _ _ _ Hk Hc) as [Hlt _].
    unfold update_at at 1. rewrite (get_update_at_eq _ _ _ _ Hc).
    unfold update_at. rewrite Hc. unfold JsArray.set. rewrite Hk. cbn.
    by rewrite write_write, Hfg.
  - by rewrite !(update_at_absent _ _ _ Hc).
Qed.

(** Rewriting the current iteration of an array without properties by a
    function that leaves it as it is changes nothing. *)
Lemma update_at_fixed (a : JsArray.t Iteration) cur f :
  JsArray.props a = [] ->
  (forall it, JsArray.get a cur = Some it -> f it = it) ->
  update_at cur f (JsArray.spread a) = a.
Proof.
  intros Hp Hf. destruct a as [l ps]. cbn in Hp. subst ps.
  change (JsArray.spread (JsArray.mk l [])) with (JsArray.mk l []).
  unfold update_at.
  destruct (JsArray.get (JsArray.mk l []) cur) as [it|] eqn:Hc; [|done].
  rewrite (Hf it eq_refl). unfold JsArray.get in Hc. unfold JsArray.set.
  destruct (JsArray.is_index cur); [|done]. cbn in *.
  destruct (l !! Z.to_nat cur) as [[x|]|] eqn:Hl; try done.
  injection Hc as ->. unfold JsArray.write.
  pose proof (lookup_lt_Some _ _ _ Hl) as Hlt.
  destruct (Nat.ltb_spec (Z.to_nat cur) (length l)); [|lia].
  by rewrite list_insert_id.
Qed.

Lemma props_update_at (a : JsArray.t Iteration) cur f :
  JsArray.props (update_at cur f (JsArray.spread a)) = [].
Proof. by rewrite <- spread_update_at. Qed.

Lemma completeGeneration_after_chunk c chunk s :
  completeGeneration c (appendGenerationChunk chunk s) = completeGeneration c s.
Proof.
  unfold completeGeneration, appendGenerationChunk. cbn. f_equal.
  by apply update_at_twice.
Qed.

(** X1: once [generation_complete] arrives the chunks have left no trace:
    completing after any chunks gives the very state that completing at
    once would have given. *)
Theorem completeGeneration_forgets_chunks (chunks : list string) (c : string)
    (s : ReasoningState) :
  completeGeneration c
    (fold_left (fun st chunk => appendGenerationChunk chunk st) chunks s)
  = completeGeneration c s.
Proof.
  revert s. induction chunks as [|chunk chunks IH]; intros s; [done|].
  cbn [fold_left]. by rewrite IH, completeGeneration_after_chunk.
Qed.

Lemma critique_chunks_buffered (chunks : list string) (s : ReasoningState) :
  let s' := fold_left (fun st chunk => appendCritiqueChunk chunk st) chunks s in
  iterations s' = iterations s
  /\ currentIteration s' = currentIteration s
  /\ streamingContent s'
     = fold_left String.append chunks (streamingContent s)
  /\ forall c, completeCritique c s' = completeCritique c s.
Proof.
  revert s. induction chunks as [|chunk chunks IH]; intros s; [done|].
  cbn [fold_left]. destruct (IH (appendCritiqueChunk chunk s)) as (H1 & H2 & H3 & H4).
  repeat split; [by rewrite H1 | by rewrite H2 | by rewrite H3 |].
  intros c. by rewrite H4.
Qed.

(** X2: critique chunks are only buffered.  They change no iteration, the
    buffer holds their concatenation, and [critique_complete] discards it:
    completing after the chunks gives the state that completing without
    them gives. *)
Theorem critique_chunks_only_buffered (chunks : list string)
    (c : CritiqueResult) (s : ReasoningState) :
  let s' := fold_left (fun st chunk => appendCritiqueChunk chunk st) chunks s in
  iterations s' = iterations s
  /\ streamingContent s'
     = fold_left String.append chunks (streamingContent s)
  /\ completeCritique c s' = completeCritique c s.
Proof.
  intros s'. destruct (critique_chunks_buffered chunks s) as (H1 & _ & H3 & H4).
  by repeat split.
Qed.

Lemma update_at_compose (a : JsArray.t Iteration) cur f g :
  update_at cur f (JsArray.spread (update_at cur g (JsArray.spread a)))
  = update_at cur (fun it => f (g it)) (JsArray.spread a).
Proof.
  rewrite spread_update_at.
  destruct (JsArray.get (JsArray.spread a) cur) as [it|] eqn:Hc.
  - destruct (get_spread_Some _ _ _ Hc) as [Hk _].
    destruct (get_index_lt _ _ _ Hk Hc) as [Hlt _].
    unfold update_at at 1. rewrite (get_update_at_eq _ _ _ _ Hc).
    unfold update_at. rewrite Hc. unfold JsArray.set. rewrite Hk. cbn.
    by rewrite write_write.
  - by rewrite !(update_at_absent _ _ _ Hc).
Qed.

Lemma update_at_ext (a : JsArray.t Iteration) cur f g :
  (forall it, f it = g it) -> update_at cur f a = update_at cur g a.
Proof.
  intros Hfg. unfold update_at. destruct (JsArray.get a cur); [|done].
  by rewrite Hfg.
Qed.

(** X3: [iteration_complete] re-asserts what the finer events have set.
    After [generation_complete], [critique_start] and [critique_complete]
    with the same content and critique it changes nothing at all, and
    applying it twice is applying it once. *)
Theorem iteration_complete_reasserts (c : string) (sc sc' : float)
    (cr : CritiqueResult) (s : ReasoningState) :
  let settled := completeCritique cr (startCritique (completeGeneration c s)) in
  completeIteration c sc cr settled = settled
  /\ completeIteration c sc cr (completeIteration c sc' cr s)
     = completeIteration c sc' cr s.
Proof.
  split.
  - unfold completeIteration, completeCritique, startCritique,
      completeGeneration. cbn. f_equal.
    rewrite !update_at_compose. by apply update_at_ext.
  - unfold completeIteration. cbn. f_equal.
    rewrite update_at_compose. by apply update_at_ext.
Qed.

(** ** The numbers of the iterations *)

Lemma store_inv_initial : store_inv initialState.
Proof.
  split; intros k it H; [|done].
  unfold JsArray.get in H. cbn in H. rewrite lookup_nil in H.
  by destruct (JsArray.is_index k).
Qed.

Lemma store_inv_same (s s' : ReasoningState) :
  iterations s' = iterations s -> currentIteration s' = currentIteration s ->
  store_inv s -> store_inv s'.
Proof. unfold store_inv. intros -> ->. done. Qed.

Lemma store_inv_rewritten (s s' : ReasoningState) f :
  (forall it, number (f it) = number it) ->
  iterations s' = update_at (currentIteration s) f (JsArray.spread (iterations s)) ->
  store_inv s -> store_inv s'.
Proof.
  intros Hf Hi [Hnum _]. split.
  - intros k it' Hk. rewrite Hi in Hk.
    apply get_updated in Hk as [(-> & it & _ & Hit & ->)|(_ & Hit)].
    + rewrite Hf. by apply Hnum.
    + by apply Hnum.
  - intros k it. by rewrite Hi, props_update_at.
Qed.

Lemma store_inv_startGeneration i s :
  store_inv s -> store_inv (startGeneration i s).
Proof.
  intros [Hnum _]. unfold startGeneration. cbn.
  assert (Hold : forall it, JsArray.get (JsArray.spread (iterations s)) i = Some it ->
                            number it = i).
  { intros it Hit. apply Hnum. by destruct (get_spread_Some _ _ _ Hit). }
  split.
  - intros k it' Hk. cbn in Hk.
    destruct (decide (i = k)) as [->|Hne].
    + destruct (JsArray.get (JsArray.spread (iterations s)) k) as [it|] eqn:Hc;
        rewrite get_set_eq in Hk; injection Hk as <-; cbn; [|done].
      by apply Hold.
    + destruct (JsArray.get (JsArray.spread (iterations s)) i);
        rewrite get_set_ne in Hk by done;
        apply Hnum; by destruct (get_spread_Some _ _ _ Hk).
  - intros k it'. cbn.
    destruct (JsArray.get (JsArray.spread (iterations s)) i) as [it|];
      unfold JsArray.set; destruct (JsArray.is_index i) eqn:Hi; cbn; try done.
    all: destruct (Z.eqb_spec i k) as [->|]; [|done].
    all: by intros [= <-].
Qed.

Lemma store_inv_perform a s : store_inv s -> store_inv (perform a s).
Proof.
  intros Hinv. destruct a as [i|chunk|content| |chunk|c|content sc c|output sc].
  - by apply store_inv_startGeneration.
  - by refine (store_inv_rewritten s _ _ _ (proj1 (perform_chunk chunk s)) Hinv).
  - by refine (store_inv_rewritten s _ _ _
                 (proj1 (perform_rewrites (CompleteGeneration content) _ s eq_refl))
                 Hinv).
  - by refine (store_inv_rewritten s _ _ _
                 (proj1 (perform_rewrites StartCritique _ s eq_refl)) Hinv).
  - by apply (store_inv_same s).
  - by refine (store_inv_rewritten s _ _ _
                 (proj1 (perform_rewrites (CompleteCritique c) _ s eq_refl))
                 Hinv).
  - by refine (store_inv_rewritten s _ _ _
                 (proj1 (perform_rewrites (CompleteIteration content sc c) _ s
                           eq_refl)) Hinv).
  - by apply (store_inv_same s).
Qed.

Lemma store_inv_invoke c s : store_inv s -> store_inv (invoke c s).
Proof.
  intros Hinv. destruct c; try (by apply (store_inv_same s)).
  - by apply store_inv_perform.
  - apply store_inv_initial.
  - apply store_inv_initial.
Qed.

Lemma store_inv_invoke_all cs s : store_inv s -> store_inv (invoke_all cs s).
Proof.
  revert s. induction cs as [|c cs IH]; intros s Hinv; [done|].
  cbn. by apply IH, store_inv_invoke.
Qed.

(** X4: whatever functions of the store are called, in whatever order,
    every iteration of the array sits under its own number. *)
Theorem iterations_sit_under_their_number (cs : list StoreCall) (k : Z)
    (it : Iteration) :
  JsArray.get (iterations (invoke_all cs initialState)) k = Some it ->
  number it = k.
Proof.
  intros Hk.
  destruct (store_inv_invoke_all cs initialState store_inv_initial) as [Hnum _].
  by apply Hnum.
Qed.

Lemma iterations_sit_under_their_number_witness :
  let s := invoke_all [SetStatus running; Iter (StartGeneration 2);
                       Iter (CompleteGeneration "done")] initialState in
  (generation <$> JsArray.get (iterations s) 2) = Some "done"
  /\ (number <$> JsArray.get (iterations s) 2) = Some 2.
Proof.
  intros s. split; [reflexivity|].
  destruct (JsArray.get (iterations s) 2) as [it|] eqn:Hit; [|discriminate].
  cbn. f_equal.
  exact (iterations_sit_under_their_number
           [SetStatus running; Iter (StartGeneration 2);
            Iter (CompleteGeneration "done")] 2 it Hit).
Defined.

(** ** What an action leaves alone *)

Lemma perform_elsewhere a s k :
  JsArray.is_index k = true -> k <> addressed a s ->
  JsArray.get (iterations (perform a s)) k = JsArray.get (iterations s) k.
Proof.
  intros Hk Hne.
  destruct a as [i|chunk|content| |chunk|c|content sc c|output sc];
    cbn in Hne; try reflexivity.
  { unfold startGeneration. cbn.
    destruct (JsArray.get (JsArray.spread (iterations s)) i);
      rewrite get_set_ne by done; by rewrite get_spread, Hk. }
  all: cbn; rewrite get_update_at_ne by done; by rewrite get_spread, Hk.
Qed.

(** X5: an action writes to one iteration only, the one it addresses
    ([startGeneration] the one it opens, every other action the current
    one): the element under any other array index is what it was, and the
    addressed iteration is the current one afterwards. *)
Theorem action_touches_addressed_only (a : Action) (s : ReasoningState) (k : Z) :
  JsArray.is_index k = true ->
  k <> addressed a s ->
  JsArray.get (iterations (perform a s)) k = JsArray.get (iterations s) k
  /\ currentIteration (perform a s) = addressed a s.
Proof.
  intros Hk Hne. split; [by apply perform_elsewhere|]. by destruct a.
Qed.

Lemma action_touches_addressed_only_witness :
  let s := perform_all [StartGeneration 0; CompleteGeneration "first";
                        StartGeneration 1] initialState in
  JsArray.get (iterations (perform (CompleteGeneration "second") s)) 0
  = JsArray.get (iterations s) 0
  /\ currentIteration (perform (CompleteGeneration "second") s) = 1.
Proof.
  intros s.
  apply (action_touches_addressed_only (CompleteGeneration "second") s 0).
  - reflexivity.
  - discriminate.
Defined.

(** X6: opening an iteration that exists sets [isGenerating] and nothing
    else: its number, its text, its critique and its models are kept, the
    models also when the configuration has been changed in between. *)
Theorem reopening_keeps_iteration (i : Z) (s : ReasoningState) (it : Iteration)
    (partial : list C.Field) :
  JsArray.get (JsArray.spread (iterations s)) i = Some it ->
  current (startGeneration i s) = Some (with_isGenerating true it)
  /\ current (startGeneration i (setConfig partial s))
     = Some (with_isGenerating true it)
  /\ currentIteration (startGeneration i s) = i
  /\ status (startGeneration i s) = running
  /\ streamingContent (startGeneration i s) = "".
Proof.
  intros Hit. destruct (get_spread_Some _ _ _ Hit) as [Hi _].
  assert (Hre : forall s', iterations s' = iterations s ->
            current (startGeneration i s') = Some (with_isGenerating true it)).
  { intros s' Hs'. unfold current, startGeneration. cbn. rewrite Hs', Hit.
    rewrite spread_set_index by done. apply get_set_eq. }
  repeat split; try done; by apply Hre.
Qed.

Lemma reopening_keeps_iteration_witness :
  let s := perform_all [StartGeneration 0; CompleteGeneration "text"] initialState in
  (generation <$> current (startGeneration 0
                             (setConfig [C.generator_model "other/model"] s)))
  = Some "text"
  /\ (generation_model <$> current (startGeneration 0
                                      (setConfig [C.generator_model "other/model"] s)))
     = Some (Some "anthropic/claude-3.7-sonnet").
Proof.
  intros s.
  destruct (reopening_keeps_iteration 0 s
              {| number := 0; generation := "text";
                 generation_model := Some "anthropic/claude-3.7-sonnet";
                 critique := None; critique_model := Some "openai/o3";
                 isGenerating := false; isCritiquing := false |}
              [C.generator_model "other/model"] eq_refl) as (_ & H & _).
  by rewrite H.
Defined.

(** X7: an iteration opened under an array index that holds none starts
    empty, without critique, generating, and takes its models from the
    rotation of the configuration in force: the generator is slot
    [i mod 3] and the critic slot [(i + 1) mod 3] of the roster, two
    different slots. *)
Theorem fresh_iteration_takes_rotated_models (i : Z) (s : ReasoningState) :
  JsArray.is_index i = true ->
  JsArray.get (JsArray.spread (iterations s)) i = None ->
  exists it,
    current (startGeneration i s) = Some it
    /\ number it = i
    /\ generation it = ""
    /\ critique it = None
    /\ isGenerating it = true
    /\ isCritiquing it = false
    /\ generation_model it = roster (config s) !! Z.to_nat (i mod 3)
    /\ critique_model it = roster (config s) !! Z.to_nat ((i + 1) mod 3)
    /\ is_Some (generation_model it)
    /\ is_Some (critique_model it)
    /\ i mod 3 <> (i + 1) mod 3.
Proof.
  intros Hi Habs. eexists. split.
  { unfold current, startGeneration. cbn. rewrite Habs.
    rewrite spread_set_index by done. apply get_set_eq. }
  destruct (is_index_safe i Hi) as [Hnn Hsafe].
  unfold getRotatedModels. cbn [number generation critique isGenerating
    isCritiquing generation_model critique_model generator critic].
  rewrite (js_succ_safe i Hsafe). rewrite !js_rem_nonneg by lia.
  destruct (mod3_cases i) as [H3|[H3|H3]];
    destruct H3 as (-> & -> & _); cbn; repeat split; eauto; lia.
Qed.

Lemma fresh_iteration_takes_rotated_models_witness :
  exists it,
    current (startGeneration 4 initialState) = Some it
    /\ generation_model it = Some "openai/o3"
    /\ critique_model it = Some "anthropic/claude-opus-4.5".
Proof.
  destruct (fresh_iteration_takes_rotated_models 4 initialState eq_refl eq_refl)
    as (it & Hc & _ & _ & _ & _ & _ & Hg & Hk & _).
  exists it. by repeat split.
Defined.

(** ** The array only grows *)

Lemma length_write (n : nat) (x : Iteration) (l : list (option Iteration)) :
  length (JsArray.write n x l) = Nat.max (length l) (S n).
Proof.
  unfold JsArray.write. destruct (Nat.ltb_spec n (length l)).
  - rewrite length_insert. lia.
  - rewrite !length_app, length_replicate. cbn. lia.
Qed.

Lemma length_update_at (a : JsArray.t Iteration) cur f :
  JsArray.length (update_at cur f (JsArray.spread a)) = JsArray.length a.
Proof.
  unfold update_at.
  destruct (JsArray.get (JsArray.spread a) cur) as [it|] eqn:Hc; [|done].
  destruct (get_spread_Some _ _ _ Hc) as [Hk Hget].
  destruct (get_index_lt _ _ _ Hk Hget) as [Hlt _].
  unfold JsArray.set, JsArray.length. rewrite Hk. cbn.
  rewrite length_write. lia.
Qed.

Lemma length_perform (a : Action) (s : ReasoningState) :
  JsArray.length (iterations (perform a s))
  = match a with
    | StartGeneration i =>
        if JsArray.is_index i
        then Z.max (JsArray.length (iterations s)) (i + 1)
        else JsArray.length (iterations s)
    | _ => JsArray.length (iterations s)
    end.
Proof.
  destruct a as [i|chunk|content| |chunk|c|content sc c|output sc];
    try apply length_update_at; try reflexivity.
  unfold startGeneration. cbn.
  destruct (JsArray.get (JsArray.spread (iterations s)) i);
    unfold JsArray.set, JsArray.length;
    destruct (JsArray.is_index i) eqn:Hi; cbn; try done;
    rewrite length_write; unfold JsArray.is_index in Hi; lia.
Qed.

(** X8: no action removes an iteration.  [startGeneration(i)] for an array
    index [i] makes the array [i + 1] long when it was shorter (the
    elements in between are holes), and no other action, nor any sequence
    of the eight actions, changes or shortens its length. *)
Theorem iterations_array_only_grows (acts : list Action) (a : Action)
    (s : ReasoningState) :
  JsArray.length (iterations (perform a s))
  = match a with
    | StartGeneration i =>
        if JsArray.is_index i
        then Z.max (JsArray.length (iterations s)) (i + 1)
        else JsArray.length (iterations s)
    | _ => JsArray.length (iterations s)
    end
  /\ JsArray.length (iterations s)
     <= JsArray.length (iterations (perform_all acts s)).
Proof.
  split; [apply length_perform|].
  revert s. induction acts as [|a' acts IH]; intros s; [done|].
  cbn. etrans; [|apply IH].
  rewrite (length_perform a' s).
  destruct a'; try done. destruct (JsArray.is_index _); lia.
Qed.

(** * Further properties of the connection manager *)

Lemma dispatch_leaves (e : ReasoningEvent.t) (h : Hook) :
  heap (dispatch e h) = heap h
  /\ wsRef (dispatch e h) = wsRef h
  /\ connectedSessionRef (dispatch e h) = connectedSessionRef h
  /\ reconnectAttempts (dispatch e h) = reconnectAttempts h
  /\ timers (dispatch e h) = timers h
  /\ calls (dispatch e h) = calls h.
Proof. unfold dispatch. repeat case_match; done. Qed.

(** X9: no inbound event touches what the user has entered or chosen, nor
    the connection: the session id, the task, the context, the context
    files, the configuration and the two connection flags of the store are
    what they were, and so are the hook's sockets, binding, attempt counter
    and timers. *)
Theorem events_leave_inputs_and_connection (e : ReasoningEvent.t) (h : Hook) :
  let s := store h in
  let s' := store (dispatch e h) in
  sessionId s' = sessionId s
  /\ task s' = task s
  /\ context s' = context s
  /\ contextFiles s' = contextFiles s
  /\ config s' = config s
  /\ wsConnected s' = wsConnected s
  /\ needsWebSocket s' = needsWebSocket s
  /\ heap (dispatch e h) = heap h
  /\ wsRef (dispatch e h) = wsRef h
  /\ connectedSessionRef (dispatch e h) = connectedSessionRef h
  /\ reconnectAttempts (dispatch e h) = reconnectAttempts h
  /\ timers (dispatch e h) = timers h
  /\ calls (dispatch e h) = calls h.
Proof.
  destruct (dispatch_leaves e h) as (H1 & H2 & H3 & H4 & H5 & H6).
  cbn zeta. repeat split; try assumption.
  all: unfold dispatch; repeat case_match; reflexivity.
Qed.

(** X10: after [session_complete] the final score is a number: the score
    of the event when it has one that is neither zero nor [NaN], and 0
    otherwise, that is when the event has no score or one that is [0],
    [-0] or [NaN]; the session is completed and the next close is marked
    intentional. *)
Theorem session_complete_score_is_a_number (e : ReasoningEvent.t) (h : Hook) :
  ReasoningEvent.type e = "session_complete" ->
  let h' := dispatch e h in
  exists f,
    finalScore (store h') = Some f
    /\ is_nan f = false
    /\ (forall v, ReasoningEvent.score e = Some v ->
                  is_zero v = false -> is_nan v = false -> f = v)
    /\ (forall v, ReasoningEvent.score e = Some v ->
                  is_zero v = true \/ is_nan v = true -> f = 0%float)
    /\ (ReasoningEvent.score e = None -> f = 0%float)
    /\ finalOutput (store h') = Some (ReasoningEvent.content e)
    /\ status (store h') = completed
    /\ isIntentionalCloseRef h' = true.
Proof.
  intros He h'. subst h'. rewrite (dispatch_session_complete e h He).
  exists (or_zero (ReasoningEvent.score e)). cbn.
  split; [done|]. unfold or_zero.
  destruct (ReasoningEvent.score e) as [v|]; [|by repeat split].
  destruct (is_zero v) eqn:Hz, (is_nan v) eqn:Hn; cbn;
    repeat split; try done;
    try (intros v' [= <-] Hz' Hn'; unfold is_zero in *; congruence);
    intros v' [= <-] [Hz'|Hn']; unfold is_zero in *; congruence.
Qed.

Lemma session_complete_score_is_a_number_witness :
  finalScore (store (dispatch (scored_event "session_complete" "out"
                                 (Some (-0)%float) None)
                       (mount initialState))) = Some 0%float.
Proof.
  destruct (session_complete_score_is_a_number
              (scored_event "session_complete" "out" (Some (-0)%float) None)
              (mount initialState) eq_refl) as (f & Hf & _ & _ & Hz & _).
  rewrite Hf. f_equal. apply (Hz (-0)%float eq_refl). by left.
Defined.

(** ** When a close sets no timer *)

Lemma onclose_leaves sid ev h :
  heap (onclose sid ev h) = heap h
  /\ wsRef (onclose sid ev h) = wsRef h
  /\ connectedSessionRef (onclose sid ev h) = connectedSessionRef h
  /\ isIntentionalCloseRef (onclose sid ev h) = isIntentionalCloseRef h
  /\ calls (onclose sid ev h) = calls h
  /\ wsConnected (store (onclose sid ev h)) = false.
Proof. unfold onclose. by case_match. Qed.

Lemma onclose_no_timer sid ev h :
  isIntentionalCloseRef h = true
  \/ status (store h) <> running
  \/ connectedSessionRef h <> Some sid
  \/ maxReconnectAttempts <= reconnectAttempts h ->
  timers (onclose sid ev h) = timers h
  /\ reconnectAttempts (onclose sid ev h) = reconnectAttempts h
  /\ scheduled h (onclose sid ev h) = [].
Proof.
  intros Hwhy.
  assert (Hcond :
    negb (isIntentionalCloseRef h)
    && bool_decide (status (store h) = running)
    && bool_decide (connectedSessionRef h = Some sid)
    && (reconnectAttempts h <? maxReconnectAttempts) = false).
  { destruct Hwhy as [Hf|[Hs|[Hb|Ha]]].
    - by rewrite Hf.
    - rewrite (bool_decide_eq_false_2 _ Hs). by rewrite andb_false_r.
    - rewrite (bool_decide_eq_false_2 _ Hb). by rewrite andb_false_r.
    - destruct (Z.ltb_spec (reconnectAttempts h) maxReconnectAttempts); [lia|].
      by rewrite andb_false_r. }
  unfold onclose. cbn. rewrite Hcond. cbn.
  repeat split. apply scheduled_app. by rewrite app_nil_r.
Qed.

Lemma flag_stays_set (later : list ReasoningEvent.t) (h : Hook) :
  isIntentionalCloseRef h = true ->
  isIntentionalCloseRef (dispatch_all later h) = true.
Proof.
  revert h. induction later as [|e later IH]; intros h Hf; [done|].
  change (dispatch_all (e :: later) h) with (dispatch_all later (dispatch e h)).
  apply IH. unfold dispatch. by repeat case_match.
Qed.

Lemma dispatch_all_leaves (later : list ReasoningEvent.t) (h : Hook) :
  timers (dispatch_all later h) = timers h
  /\ reconnectAttempts (dispatch_all later h) = reconnectAttempts h.
Proof.
  revert h. induction later as [|e later IH]; intros h; [done|].
  change (dispatch_all (e :: later) h) with (dispatch_all later (dispatch e h)).
  destruct (IH (dispatch e h)) as [-> ->].
  by destruct (dispatch_leaves e h) as (_ & _ & _ & -> & -> & _).
Qed.

(** X11: a terminal event ([session_complete], [session_stopped],
    [session_error]) disarms reconnection, and no event that follows arms
    it again: whatever messages come after it, the close of the socket sets
    no timer and leaves the attempt counter alone. *)
Theorem terminal_event_disarms_reconnection
    (e : ReasoningEvent.t) (later : list ReasoningEvent.t)
    (sid : string) (ev : CloseEvent) (h : Hook) :
  ReasoningEvent.type e ∈ ["session_complete"; "session_stopped"; "session_error"] ->
  let h' := dispatch_all later (dispatch e h) in
  isIntentionalCloseRef h' = true
  /\ timers (onclose sid ev h') = timers h
  /\ reconnectAttempts (onclose sid ev h') = reconnectAttempts h
  /\ scheduled h' (onclose sid ev h') = [].
Proof.
  intros He h'.
  assert (Hflag : isIntentionalCloseRef (dispatch e h) = true).
  { unfold dispatch.
    repeat (apply elem_of_cons in He as [->|He]; [reflexivity|]).
    by apply elem_of_nil in He. }
  assert (Hf' : isIntentionalCloseRef h' = true) by by apply flag_stays_set.
  destruct (onclose_no_timer sid ev h' (or_introl Hf')) as (Ht & Ha & Hs).
  subst h'.
  destruct (dispatch_all_leaves later (dispatch e h)) as [Ht' Ha'].
  destruct (dispatch_leaves e h) as (_ & _ & _ & Ha'' & Ht'' & _).
  repeat split; try done.
  - by rewrite Ht, Ht', Ht''.
  - by rewrite Ha, Ha', Ha''.
Qed.

Lemma terminal_event_disarms_reconnection_witness :
  let h := dispatch_all [event "critique_chunk" 0 "late"]
             (dispatch (event "session_stopped" 0 "") connected_s1) in
  isIntentionalCloseRef h = true
  /\ scheduled h (onclose "s1" abnormal_closure h) = [].
Proof.
  intros h.
  destruct (terminal_event_disarms_reconnection (event "session_stopped" 0 "")
              [event "critique_chunk" 0 "late"] "s1" abnormal_closure
              connected_s1) as (Hf & _ & _ & Hs).
  - apply list_elem_of_In. cbn. tauto.
  - by split.
Defined.

(** ** The retry budget *)

Lemma connect_leaves sid h :
  timers (connect sid h) = timers h
  /\ reconnectAttempts (connect sid h) = reconnectAttempts h
  /\ store (connect sid h) = store h.
Proof. unfold connect. by repeat case_match. Qed.

Lemma effect_leaves sessionId shouldConnect h :
  timers (effect sessionId shouldConnect h) = timers h
  /\ (reconnectAttempts (effect sessionId shouldConnect h) = reconnectAttempts h
      \/ reconnectAttempts (effect sessionId shouldConnect h) = 0)
  /\ store (effect sessionId shouldConnect h) = store h.
Proof.
  unfold effect.
  repeat case_match;
    repeat match goal with
      | |- context [connect ?sid ?st] =>
          destruct (connect_leaves sid st) as (-> & -> & ->)
      end;
    unfold close_current; repeat case_match; cbn; auto.
Qed.

Lemma unmount_leaves h :
  timers (unmount h) = timers h
  /\ reconnectAttempts (unmount h) = reconnectAttempts h
  /\ store (unmount h) = store h.
Proof. unfold unmount, close_current. by repeat case_match. Qed.

Section Budget.
Variable JSON_parse : string -> Completion ReasoningEvent.t.

Lemma within_budget_same h h' :
  timers h' = timers h ->
  reconnectAttempts h' = reconnectAttempts h \/ reconnectAttempts h' = 0 ->
  within_budget h -> within_budget h'.
Proof.
  unfold within_budget, maxReconnectAttempts. intros -> Ha [Hb Ht].
  split; [lia|done].
Qed.

Lemma onclose_within_budget sid ev h :
  within_budget h -> within_budget (onclose sid ev h).
Proof.
  intros [Hb Ht]. unfold onclose.
  case_match; [|by apply (within_budget_same h); auto].
  cbn in *. unfold maxReconnectAttempts in *.
  repeat match goal with
    | H : _ && _ = true |- _ => apply andb_prop in H as [? ?]
    | H : (_ <? _) = true |- _ => apply Z.ltb_lt in H
    end.
  unfold within_budget, maxReconnectAttempts. cbn [reconnectAttempts timers
    with_timers log with_console with_reconnectAttempts on_store with_store].
  split; [lia|]. intros delay sid' Hin.
  apply elem_of_app in Hin as [Hin|Hin]; [by eapply Ht|].
  apply list_elem_of_singleton in Hin as [= -> ->]. lia.
Qed.

Lemma fire_within_budget cb h :
  within_budget h -> within_budget (fire JSON_parse cb h).
Proof.
  intros Hb. destruct cb as [sessionId shouldConnect| |r|r payload|r|r ev|n|action];
    cbn [fire].
  - destruct (effect_leaves sessionId shouldConnect h) as (Ht & Ha & _).
    by apply (within_budget_same h).
  - destruct (unmount_leaves h) as (Ht & Ha & _).
    apply (within_budget_same h); auto.
  - destruct (readyState <$> heap h !! r) as [[]|]; try done.
    apply (within_budget_same h); auto.
  - destruct (readyState <$> heap h !! r) as [[]|]; try done;
      unfold onmessage; destruct (JSON_parse payload) as [data|err]; cbn;
      try (by apply (within_budget_same h); auto);
      destruct (dispatch_leaves data (log ["WS Event:"; ReasoningEvent.type data] h))
        as (_ & _ & _ & Ha & Ht & _);
      apply (within_budget_same h); auto.
  - destruct (heap h !! r); [|done]. apply (within_budget_same h); auto.
  - destruct (heap h !! r) as [w|]; [|done].
    destruct (readyState w); try done;
      apply onclose_within_budget; apply (within_budget_same h); auto.
  - destruct (timers h !! n) as [[delay sid]|] eqn:Hn; [|done].
    destruct (connect_leaves sid (with_timers (delete n (timers h)) h))
      as (Ht & Ha & _).
    destruct Hb as [Hb Hd]. split; [by rewrite Ha|].
    intros delay' sid' Hin. rewrite Ht in Hin. cbn in Hin.
    apply list_elem_of_delete_inv in Hin. by eapply Hd.
  - apply (within_budget_same h); auto.
Qed.

Lemma run_within_budget cbs h :
  within_budget h -> within_budget (run JSON_parse cbs h).
Proof.
  revert h. induction cbs as [|cb cbs IH]; intros h Hb; [done|].
  cbn. by apply IH, fire_within_budget.
Qed.

End Budget.

(** X12: in every state that the event loop reaches the attempt counter
    is between 0 and 3, and every pending reconnection timer has a delay
    of 1000, 2000 or 3000 ms, whatever the sockets, the effects and the
    rest of the application do. *)
Theorem reconnection_stays_within_budget
    (JSON_parse : string -> Completion ReasoningEvent.t)
    (cbs : list Callback) (s0 : ReasoningState) :
  let h := run JSON_parse cbs (mount s0) in
  0 <= reconnectAttempts h <= 3
  /\ forall delay sid, (delay, sid) ∈ timers h ->
                       delay = 1000 \/ delay = 2000 \/ delay = 3000.
Proof.
  apply run_within_budget. split; cbn; [unfold maxReconnectAttempts; lia|].
  intros delay sid Hin. by apply elem_of_nil in Hin.
Qed.

(** ** The binding of the hook *)

Section Binding.
Variable JSON_parse : string -> Completion ReasoningEvent.t.

Lemma bound_same h h' :
  heap h' = heap h -> wsRef h' = wsRef h ->
  connectedSessionRef h' = connectedSessionRef h ->
  bound_to_held h -> bound_to_held h'.
Proof. unfold bound_to_held. intros -> -> ->. done. Qed.

Lemma bound_null h : wsRef h = None -> bound_to_held h.
Proof. intros Hnull r Hr. congruence. Qed.

Lemma bound_alter h f r :
  (forall w, sid (f w) = sid w) ->
  bound_to_held h -> bound_to_held (with_heap (alter f r (heap h)) h).
Proof.
  intros Hf Hb r' Hr'. cbn in *. destruct (Hb r' Hr') as (w & Hw & Hs).
  destruct (decide (r = r')) as [<-|Hne].
  - exists (f w). rewrite list_lookup_alter_eq, Hw. by rewrite Hf.
  - exists w. by rewrite list_lookup_alter_ne.
Qed.

Lemma connect_bound sid h : bound_to_held h -> bound_to_held (connect sid h).
Proof.
  intros Hb. unfold connect.
  destruct (current_readyState h) as [[]|]; try exact Hb.
  all: intros r; cbn; intros [= <-]; eexists;
    by rewrite lookup_app_r, Nat.sub_diag.
Qed.

Lemma effect_bound sessionId shouldConnect h :
  bound_to_held h -> bound_to_held (effect sessionId shouldConnect h).
Proof.
  intros Hb. unfold effect.
  destruct (wsRef h) as [cur|] eqn:Hws.
  - rewrite !(bool_decide_eq_true_2 (Some cur <> None)) by done.
    destruct (truthy sessionId) as [sid'|], shouldConnect;
      repeat case_match;
      first
        [ exact Hb
        | apply connect_bound;
          first [ by apply bound_null | exact Hb ]
        | by apply bound_null ].
  - rewrite !(bool_decide_eq_false_2 (@None nat <> None))
      by (intros Hn; by apply Hn).
    destruct (truthy sessionId) as [sid'|], shouldConnect;
      repeat case_match;
      first
        [ exact Hb
        | apply connect_bound; by apply bound_null
        | by apply bound_null ].
Qed.

Lemma unmount_bound h : bound_to_held h -> bound_to_held (unmount h).
Proof.
  intros Hb. unfold unmount. case_match.
  - by apply bound_null.
  - exact Hb.
Qed.

Lemma fire_bound cb h : bound_to_held h -> bound_to_held (fire JSON_parse cb h).
Proof.
  intros Hb. destruct cb as [sessionId shouldConnect| |r|r payload|r|r ev|n|action];
    cbn [fire].
  - by apply effect_bound.
  - by apply unmount_bound.
  - destruct (heap h !! r) as [w|]; cbn; [|done].
    destruct (readyState w); try done.
    apply (bound_same (with_readyState r OPEN h)); [done..|].
    by apply bound_alter.
  - destruct (readyState <$> heap h !! r) as [[]|]; try done;
      unfold onmessage; destruct (JSON_parse payload) as [data|err]; cbn;
      try done;
      destruct (dispatch_leaves data (log ["WS Event:"; ReasoningEvent.type data] h))
        as (H1 & H2 & H3 & _);
      by apply (bound_same h).
  - by destruct (heap h !! r).
  - destruct (heap h !! r) as [w|]; [|done].
    assert (Hdead : bound_to_held (with_readyState r CLOSED h)).
    { by apply bound_alter. }
    destruct (readyState w); try done;
      destruct (onclose_leaves (sid w) ev (with_readyState r CLOSED h))
        as (H1 & H2 & H3 & _);
      by apply (bound_same (with_readyState r CLOSED h)).
  - destruct (timers h !! n) as [[delay sid]|]; [|done].
    by apply connect_bound.
  - done.
Qed.

Lemma run_bound cbs h : bound_to_held h -> bound_to_held (run JSON_parse cbs h).
Proof.
  revert h. induction cbs as [|cb cbs IH]; intros h Hb; [done|].
  cbn. by apply IH, fire_bound.
Qed.

End Binding.

(** X13: in every state that the event loop reaches, a socket held in
    [wsRef] is one the hook has created, and the hook is bound to the
    session that socket was made for. *)
Theorem hook_bound_to_held_socket
    (JSON_parse : string -> Completion ReasoningEvent.t)
    (cbs : list Callback) (s0 : ReasoningState) (r : nat) :
  let h := run JSON_parse cbs (mount s0) in
  wsRef h = Some r ->
  exists w, heap h !! r = Some w /\ connectedSessionRef h = Some (sid w).
Proof.
  intros h Hr.
  by apply (run_bound JSON_parse cbs (mount s0) (bound_null (mount s0) eq_refl)).
Qed.

Lemma hook_bound_to_held_socket_witness :
  let h := run no_parse [Effect (Some "s1") true; Open 0; Effect (Some "s2") true]
             (mount initialState) in
  exists w, heap h !! 1%nat = Some w /\ connectedSessionRef h = Some (sid w).
Proof.
  intros h.
  exact (hook_bound_to_held_socket no_parse
           [Effect (Some "s1") true; Open 0; Effect (Some "s2") true]
           initialState 1 eq_refl).
Defined.

(** ** Sockets that are no longer the hook's *)

Lemma sid_closing w : sid (closing w) = sid w.
Proof. by destruct w as [? []]. Qed.

Section Sessions.
Variable JSON_parse : string -> Completion ReasoningEvent.t.

Lemma keeps_heap (h h' : Hook) : heap h' = heap h -> keeps_sessions h h'.
Proof. intros Hh r w Hr. exists w. by rewrite Hh. Qed.

Lemma keeps_trans (h1 h2 h3 : Hook) :
  keeps_sessions h1 h2 -> keeps_sessions h2 h3 -> keeps_sessions h1 h3.
Proof.
  intros H12 H23 r w Hr. destruct (H12 r w Hr) as (w2 & Hr2 & Hs2).
  destruct (H23 r w2 Hr2) as (w3 & Hr3 & Hs3). exists w3. split; [done|].
  by rewrite Hs3.
Qed.

Lemma keeps_alter (h h' : Hook) f k :
  (forall w, sid (f w) = sid w) ->
  heap h' = alter f k (heap h) -> keeps_sessions h h'.
Proof.
  intros Hf Hh r w Hr. rewrite Hh. destruct (decide (k = r)) as [->|Hne].
  - exists (f w). rewrite list_lookup_alter_eq, Hr. by rewrite Hf.
  - exists w. by rewrite list_lookup_alter_ne.
Qed.

Lemma keeps_app (h h' : Hook) l :
  heap h' = heap h ++ l -> keeps_sessions h h'.
Proof.
  intros Hh r w Hr. exists w. rewrite Hh. split; [|done].
  by apply lookup_app_l_Some.
Qed.

Lemma connect_keeps target h : keeps_sessions h (connect target h).
Proof.
  unfold connect. destruct (current_readyState h) as [[]|];
    first [by apply keeps_heap | by eapply keeps_app].
Qed.

Lemma close_current_keeps h : keeps_sessions h (close_current h).
Proof.
  unfold close_current. destruct (wsRef h) as [r|]; [|by apply keeps_heap].
  apply (keeps_alter _ _ closing r); [apply sid_closing|done].
Qed.

Lemma effect_keeps sessionId shouldConnect h :
  keeps_sessions h (effect sessionId shouldConnect h).
Proof.
  assert (Hclose : forall flag,
            keeps_sessions h
              (with_wsRef None (close_current (with_isIntentionalCloseRef flag h)))).
  { intros flag.
    apply (keeps_trans _ (close_current (with_isIntentionalCloseRef flag h))).
    - apply (keeps_trans _ (with_isIntentionalCloseRef flag h)).
      + by apply keeps_heap.
      + apply close_current_keeps.
    - by apply keeps_heap. }
  unfold effect.
  destruct (truthy sessionId) as [target|], shouldConnect;
    repeat case_match;
    try (by apply keeps_heap);
    try (eapply keeps_trans; [|apply connect_keeps]; by apply keeps_heap);
    try (eapply keeps_trans; [|apply connect_keeps];
         eapply keeps_trans; [apply (Hclose true)|by apply keeps_heap]);
    try (eapply keeps_trans; [apply (Hclose true)|by apply keeps_heap]).
Qed.

Lemma unmount_keeps h : keeps_sessions h (unmount h).
Proof.
  unfold unmount. case_match; [|by apply keeps_heap].
  eapply keeps_trans; [|by apply keeps_heap].
  eapply keeps_trans; [|apply close_current_keeps]. by apply keeps_heap.
Qed.

Lemma with_readyState_keeps r st h : keeps_sessions h (with_readyState r st h).
Proof.
  by apply (keeps_alter _ _ (fun w => {| sid := sid w; readyState := st |}) r).
Qed.

Lemma fire_keeps cb h : keeps_sessions h (fire JSON_parse cb h).
Proof.
  destruct cb as [sessionId shouldConnect| |r|r payload|r|r ev|n|action];
    cbn [fire].
  - apply effect_keeps.
  - apply unmount_keeps.
  - destruct (readyState <$> heap h !! r) as [[]|]; try (by apply keeps_heap).
    eapply keeps_trans; [apply (with_readyState_keeps r OPEN)|by apply keeps_heap].
  - destruct (readyState <$> heap h !! r) as [[]|]; try (by apply keeps_heap);
      apply keeps_heap, (onmessage_frame JSON_parse payload h).
  - destruct (heap h !! r); by apply keeps_heap.
  - destruct (heap h !! r) as [w|]; [|by apply keeps_heap].
    destruct (readyState w); try (by apply keeps_heap);
      (eapply keeps_trans; [apply (with_readyState_keeps r CLOSED)|]);
      apply keeps_heap, onclose_frame.
  - destruct (timers h !! n) as [[delay target]|]; [|by apply keeps_heap].
    eapply keeps_trans; [|apply connect_keeps]. by apply keeps_heap.
  - by apply keeps_heap.
Qed.

Lemma run_keeps cbs h : keeps_sessions h (run JSON_parse cbs h).
Proof.
  revert h. induction cbs as [|cb cbs IH]; intros h; [by apply keeps_heap|].
  cbn. eapply keeps_trans; [apply fire_keeps|apply IH].
Qed.

(** The close event of a socket made for a session that the hook is not
    bound to changes neither the timers nor the references. *)
Lemma close_elsewhere_inert r ev h :
  (forall w, heap h !! r = Some w -> connectedSessionRef h <> Some (sid w)) ->
  let h' := fire JSON_parse (Close r ev) h in
  timers h' = timers h
  /\ reconnectAttempts h' = reconnectAttempts h
  /\ wsRef h' = wsRef h
  /\ connectedSessionRef h' = connectedSessionRef h
  /\ isIntentionalCloseRef h' = isIntentionalCloseRef h
  /\ scheduled h h' = []
  /\ (forall k, k <> r -> heap h' !! k = heap h !! k).
Proof.
  intros Hunbound h'. subst h'. cbn [fire].
  assert (Hnone : scheduled h h = []).
  { unfold scheduled. by rewrite drop_all. }
  destruct (heap h !! r) as [w|] eqn:Hr; [|by repeat split].
  assert (Hquiet :
    timers (onclose (sid w) ev (with_readyState r CLOSED h)) = timers h
    /\ reconnectAttempts (onclose (sid w) ev (with_readyState r CLOSED h))
       = reconnectAttempts h
    /\ wsRef (onclose (sid w) ev (with_readyState r CLOSED h)) = wsRef h
    /\ connectedSessionRef (onclose (sid w) ev (with_readyState r CLOSED h))
       = connectedSessionRef h
    /\ isIntentionalCloseRef (onclose (sid w) ev (with_readyState r CLOSED h))
       = isIntentionalCloseRef h
    /\ scheduled h (onclose (sid w) ev (with_readyState r CLOSED h)) = []
    /\ (forall k, k <> r ->
          heap (onclose (sid w) ev (with_readyState r CLOSED h)) !! k
          = heap h !! k)).
  { destruct (onclose_no_timer (sid w) ev (with_readyState r CLOSED h))
      as (Ht & Ha & Hs).
    { right. right. left. by apply Hunbound. }
    destruct (onclose_leaves (sid w) ev (with_readyState r CLOSED h))
      as (Hh & Hw & Hb & Hf & _).
    rewrite Ht, Ha, Hw, Hb, Hf, Hh. repeat split; try done.
    intros k Hk. cbn. by rewrite list_lookup_alter_ne. }
  destruct (readyState w); try exact Hquiet. by repeat split.
Qed.

End Sessions.

(** X14: after the effect has switched the hook to another session, the
    attempt counter is 0 and the socket of the new session is the one held,
    connecting.  The close event of the socket it dropped, whenever it is
    delivered while the hook is still bound to the new session, sets no
    timer and changes neither the attempt counter, nor the socket held and
    the binding, nor any other socket. *)
Theorem dropped_socket_close_is_inert
    (JSON_parse : string -> Completion ReasoningEvent.t)
    (cbs later : list Callback) (s0 : ReasoningState)
    (sessionId : string) (old : nat) (ev : CloseEvent) :
  let h := run JSON_parse cbs (mount s0) in
  sessionId <> "" ->
  wsRef h = Some old ->
  connectedSessionRef h <> Some sessionId ->
  let h1 := effect (Some sessionId) true h in
  let h2 := run JSON_parse later h1 in
  (timers h1 = timers h
   /\ reconnectAttempts h1 = 0
   /\ wsRef h1 = Some (length (heap h))
   /\ connectedSessionRef h1 = Some sessionId
   /\ (readyState <$> heap h1 !! length (heap h)) = Some CONNECTING
   /\ (old < length (heap h))%nat)
  /\ (connectedSessionRef h2 = Some sessionId ->
      let h3 := fire JSON_parse (Close old ev) h2 in
      timers h3 = timers h2
      /\ reconnectAttempts h3 = reconnectAttempts h2
      /\ wsRef h3 = wsRef h2
      /\ connectedSessionRef h3 = Some sessionId
      /\ isIntentionalCloseRef h3 = isIntentionalCloseRef h2
      /\ scheduled h2 h3 = []
      /\ (forall r, r <> old -> heap h3 !! r = heap h2 !! r)).
Proof.
  intros h Hne Hws Hbound h1 h2.
  destruct (run_bound JSON_parse cbs (mount s0) (bound_null (mount s0) eq_refl)
              old Hws) as (w & Hw & Hsid).
  fold h in Hw, Hsid.
  pose proof (lookup_lt_Some _ _ _ Hw) as Hlt.
  assert (Hold : heap h1 !! old = Some (closing w)).
  { subst h1. rewrite (effect_switch h sessionId old Hne Hws Hbound). cbn.
    rewrite lookup_app_l by (by rewrite length_alter).
    by rewrite list_lookup_alter_eq, Hw. }
  split.
  - subst h1. rewrite (effect_switch h sessionId old Hne Hws Hbound). cbn.
    repeat split; try done.
    rewrite lookup_app_r by (by rewrite length_alter).
    by rewrite length_alter, Nat.sub_diag.
  - intros Hstill h3.
    destruct (run_keeps JSON_parse later h1 old (closing w) Hold)
      as (w2 & Hw2 & Hs2).
    fold h2 in Hw2.
    destruct (close_elsewhere_inert JSON_parse old ev h2)
      as (Ht & Ha & Hr & Hb & Hf & Hs & Hh).
    { intros w' Hw'. rewrite Hw2 in Hw'. injection Hw' as <-.
      rewrite Hstill, Hs2, sid_closing. intros [= Heq].
      apply Hbound. by rewrite Hsid, Heq. }
    subst h3. rewrite Hb. by repeat split.
Qed.

Lemma dropped_socket_close_is_inert_witness :
  let h := run no_parse [Effect (Some "s1") true; Open 0]
             (mount (setStatus running initialState)) in
  let h2 := run no_parse [Open 1; Message 1 "late"] (effect (Some "s2") true h) in
  let h3 := fire no_parse (Close 0 abnormal_closure) h2 in
  timers h3 = [] /\ connectedSessionRef h3 = Some "s2"
  /\ (readyState <$> heap h3 !! 1%nat) = Some OPEN.
Proof.
  intros h h2 h3.
  destruct (dropped_socket_close_is_inert no_parse
              [Effect (Some "s1") true; Open 0] [Open 1; Message 1 "late"]
              (setStatus running initialState) "s2" 0 abnormal_closure)
    as (_ & Hlate).
  - discriminate.
  - reflexivity.
  - discriminate.
  - destruct Hlate as (Ht & _ & _ & Hb & _ & _ & Hh); [vm_compute; reflexivity|].
    subst h h2 h3. cbn zeta in Ht, Hb, Hh.
    split; [rewrite Ht; vm_compute; reflexivity|]. split; [exact Hb|].
    rewrite (Hh 1%nat) by discriminate. vm_compute. reflexivity.
Defined.





(** ** The viewer and the hook *)

Lemma shouldConnectWs_false (s : ReasoningState) :
  needsWebSocket s = false
  \/ status s ∈ [paused; completed; stopped; error] ->
  shouldConnectWs s = false.
Proof.
  unfold shouldConnectWs. intros [->|Hst]; [done|].
  repeat (apply elem_of_cons in Hst as [->|Hst]; [by rewrite andb_false_r|]).
  by apply elem_of_nil in Hst.
Qed.

Lemma effect_cleanup sessionId h :
  effect sessionId false h
  = with_connectedSessionRef None
      (if bool_decide (wsRef h <> None)
       then with_wsRef None (close_current (with_isIntentionalCloseRef true h))
       else h).
Proof. unfold effect. by destruct (truthy sessionId). Qed.

(** X17: when the session is paused, completed, stopped or in error, or
    needs no socket (a session of the history), the viewer's run of the
    effect drops the connection: the held socket is closed with the
    intentional-close mark set, no socket is left open or connecting, the
    hook is unbound and the timers are what they were.  A close event of
    any socket, delivered at any later time at which the hook has not been
    bound to a session again, sets no timer and leaves the attempt counter
    alone. *)
Theorem viewer_drops_connection
    (JSON_parse : string -> Completion ReasoningEvent.t)
    (cbs : list Callback) (s0 : ReasoningState) :
  let h := run JSON_parse cbs (mount s0) in
  needsWebSocket (store h) = false
  \/ status (store h) ∈ [paused; completed; stopped; error] ->
  let h' := viewer_effect h in
  wsRef h' = None
  /\ connectedSessionRef h' = None
  /\ no_live h'
  /\ (forall r, wsRef h = Some r ->
                calls h' = calls h ++ [ws_close r true]
                /\ isIntentionalCloseRef h' = true)
  /\ timers h' = timers h
  /\ (forall later r ev,
        let h2 := run JSON_parse later h' in
        connectedSessionRef h2 = None ->
        let h3 := fire JSON_parse (Close r ev) h2 in
        scheduled h2 h3 = []
        /\ timers h3 = timers h2
        /\ reconnectAttempts h3 = reconnectAttempts h2
        /\ connectedSessionRef h3 = None
        /\ wsRef h3 = wsRef h2).
Proof.
  intros h Hwhy h'.
  assert (Htimers : timers h' = timers h).
  { subst h'. unfold viewer_effect.
    by destruct (effect_leaves (sessionId (store h)) (shouldConnectWs (store h)) h)
      as (-> & _). }
  assert (Hlater : forall later r ev,
    let h2 := run JSON_parse later h' in
    connectedSessionRef h2 = None ->
    let h3 := fire JSON_parse (Close r ev) h2 in
    scheduled h2 h3 = []
    /\ timers h3 = timers h2
    /\ reconnectAttempts h3 = reconnectAttempts h2
    /\ connectedSessionRef h3 = None
    /\ wsRef h3 = wsRef h2).
  { intros later r ev h2 Hunbound h3.
    destruct (close_elsewhere_inert JSON_parse r ev h2)
      as (Ht & Ha & Hr & Hb & _ & Hs & _).
    { intros w _. by rewrite Hunbound. }
    subst h3. rewrite Hb. by repeat split. }
  cut (wsRef h' = None
       /\ connectedSessionRef h' = None
       /\ no_live h'
       /\ (forall r, wsRef h = Some r ->
                     calls h' = calls h ++ [ws_close r true]
                     /\ isIntentionalCloseRef h' = true)).
  { intros (H1 & H2 & H3 & H4).
    exact (conj H1 (conj H2 (conj H3 (conj H4 (conj Htimers Hlater))))). }
  clear Htimers Hlater. subst h'. unfold viewer_effect.
  rewrite (shouldConnectWs_false _ Hwhy), effect_cleanup.
  assert (Hinv : only_current_live h).
  { apply run_only_current_live, mount_only_current_live. }
  pose proof (close_current_no_live (with_isIntentionalCloseRef true h) Hinv)
    as Hclosed.
  destruct (wsRef h) as [cur|] eqn:Hws.
  - rewrite bool_decide_eq_true_2 by done.
    split; [done|]. split; [done|]. split; [exact Hclosed|].
    intros r [= <-]. unfold close_current. cbn. by rewrite Hws.
  - rewrite bool_decide_eq_false_2 by (intros Hn; by apply Hn).
    split; [done|]. split; [done|]. split; [|done].
    intros r w Hr. destruct (is_live w) eqn:Hl; [|done].
    pose proof (Hinv r w Hr Hl). congruence.
Qed.

Lemma viewer_drops_connection_witness :
  let h := run no_parse [StoreUpdate (setStatus running);
                         Effect (Some "s1") true; Open 0;
                         StoreUpdate (setStatus paused)]
             (mount (setSessionId (Some "s1") true initialState)) in
  let h' := viewer_effect h in
  let h2 := run no_parse [StoreUpdate (setStatus running)] h' in
  wsRef h' = None /\ calls h' = calls h ++ [ws_close 0 true]
  /\ timers (fire no_parse (Close 0 abnormal_closure) h2) = [].
Proof.
  intros h h' h2.
  destruct (viewer_drops_connection no_parse
              [StoreUpdate (setStatus running); Effect (Some "s1") true; Open 0;
               StoreUpdate (setStatus paused)]
              (setSessionId (Some "s1") true initialState))
    as (Hw & _ & _ & Hc & _ & Hlater).
  - right. apply list_elem_of_In. cbn. tauto.
  - split; [exact Hw|]. split; [by destruct (Hc 0%nat eq_refl)|].
    destruct (Hlater [StoreUpdate (setStatus running)] 0%nat abnormal_closure)
      as (_ & Ht & _); [vm_compute; reflexivity|].
    subst h h' h2. cbn zeta in Ht. rewrite Ht. vm_compute. reflexivity.
Defined.

Lemma connect_establishes target h :
  bound_to_held h ->
  (current_readyState h = Some OPEN \/ current_readyState h = Some CONNECTING ->
   connectedSessionRef h = Some target) ->
  connectedSessionRef (connect target h) = Some target
  /\ exists r w, wsRef (connect target h) = Some r
                 /\ heap (connect target h) !! r = Some w
                 /\ sid w = target /\ is_live w = true.
Proof.
  intros Hb Hsame. unfold connect.
  assert (Hheld : forall st, current_readyState h = Some st ->
            st = OPEN \/ st = CONNECTING ->
            connectedSessionRef h = Some target
            /\ exists r w, wsRef h = Some r /\ heap h !! r = Some w
                           /\ sid w = target /\ is_live w = true).
  { intros st Hst Hlive.
    assert (Hbound : connectedSessionRef h = Some target).
    { apply Hsame. destruct Hlive as [-> | ->]; auto. }
    split; [done|]. unfold current_readyState in Hst.
    destruct (wsRef h) as [r|] eqn:Hr; [|done].
    destruct (Hb r Hr) as (w & Hw & Hs). rewrite Hw in Hst. cbn in Hst.
    injection Hst as Hst. exists r, w. repeat split; try done.
    - congruence.
    - unfold is_live. rewrite Hst. by destruct Hlive as [-> | ->]. }
  destruct (current_readyState h) as [[]|] eqn:Hst;
    try (by apply (Hheld _ eq_refl); auto).
  all: cbn; split; [done|]; eexists _, _; split; [done|];
    rewrite lookup_app_r, Nat.sub_diag by lia; by cbn.
Qed.

(** X18: when the session needs a socket and is idle or running, the
    viewer's run of the effect leaves the hook bound to the session of the
    store, holding a socket made for that session that is open or
    connecting. *)
Theorem viewer_connects_session
    (JSON_parse : string -> Completion ReasoningEvent.t)
    (cbs : list Callback) (s0 : ReasoningState) (id : string) :
  let h := run JSON_parse cbs (mount s0) in
  needsWebSocket (store h) = true ->
  status (store h) = idle \/ status (store h) = running ->
  sessionId (store h) = Some id ->
  id <> "" ->
  let h' := viewer_effect h in
  connectedSessionRef h' = Some id
  /\ exists r w, wsRef h' = Some r /\ heap h' !! r = Some w
                 /\ sid w = id /\ is_live w = true.
Proof.
  intros h Hneeds Hst Hid Hne h'. subst h'. unfold viewer_effect, shouldConnectWs.
  rewrite Hneeds, Hid.
  assert (Hshould : bool_decide (status (store h) = idle)
                    || bool_decide (status (store h) = running) = true).
  { destruct Hst as [-> | ->]; done. }
  rewrite Hshould. cbn [andb]. unfold effect. cbn [truthy].
  rewrite (eqb_unknown id "" Hne).
  assert (Hb : bound_to_held h).
  { apply run_bound. by apply bound_null. }
  destruct (decide (connectedSessionRef h = Some id)) as [Hbound|Hbound].
  - rewrite (bool_decide_eq_true_2 _ Hbound). cbn [andb negb].
    rewrite andb_false_r.
    destruct (decide (current_readyState h = Some OPEN)) as [Hopen|Hopen].
    + rewrite (bool_decide_eq_true_2 _ Hopen).
      split; [done|]. unfold current_readyState in Hopen.
      destruct (wsRef h) as [r|] eqn:Hr; [|done].
      destruct (Hb r Hr) as (w & Hw & Hs). rewrite Hw in Hopen. cbn in Hopen.
      injection Hopen as Hopen. exists r, w. repeat split; try done.
      * congruence.
      * unfold is_live. by rewrite Hopen.
    + rewrite (bool_decide_eq_false_2 _ Hopen).
      apply connect_establishes; [exact Hb|done].
  - rewrite (bool_decide_eq_false_2 _ Hbound). cbn [andb negb].
    rewrite andb_true_r.
    destruct (wsRef h) as [cur|] eqn:Hws.
    + rewrite bool_decide_eq_true_2 by done.
      apply connect_establishes; [by apply bound_null|].
      intros [Hc|Hc]; discriminate Hc.
    + rewrite bool_decide_eq_false_2 by (intros Hn; by apply Hn).
      apply connect_establishes; [exact Hb|].
      unfold current_readyState. cbn. rewrite Hws.
      intros [Hc|Hc]; discriminate Hc.
Qed.

Lemma viewer_connects_session_witness :
  let h := mount (setStatus running (setSessionId (Some "s1") true initialState)) in
  let h' := viewer_effect h in
  connectedSessionRef h' = Some "s1"
  /\ exists r w, wsRef h' = Some r /\ heap h' !! r = Some w
                 /\ sid w = "s1" /\ is_live w = true.
Proof.
  intros h h'.
  apply (viewer_connects_session no_parse []
           (setStatus running (setSessionId (Some "s1") true initialState)) "s1").
  - reflexivity.
  - by right.
  - reflexivity.
  - discriminate.
Defined.

(** ** Running the effect again *)

Lemma with_reconnectAttempts_same h :
  with_reconnectAttempts (reconnectAttempts h) h = h.
Proof. by destruct h. Qed.

Lemma with_connectedSessionRef_same h :
  with_connectedSessionRef (connectedSessionRef h) h = h.
Proof. by destruct h. Qed.

Lemma effect_when_open target h :
  target <> "" ->
  connectedSessionRef h = Some target ->
  current_readyState h = Some OPEN ->
  effect (Some target) true h = h.
Proof.
  intros Hne Hb Ho. unfold effect. cbn [truthy]. rewrite (eqb_unknown _ _ Hne).
  by rewrite (bool_decide_eq_true_2 _ Hb), (bool_decide_eq_true_2 _ Ho).
Qed.

Lemma effect_when_connecting target h :
  target <> "" ->
  connectedSessionRef h = Some target ->
  current_readyState h = Some CONNECTING ->
  effect (Some target) true h = with_reconnectAttempts 0 h.
Proof.
  intros Hne Hb Hc. unfold effect. cbn [truthy]. rewrite (eqb_unknown _ _ Hne).
  rewrite (bool_decide_eq_true_2 _ Hb).
  rewrite (bool_decide_eq_false_2 (current_readyState h = Some OPEN))
    by (rewrite Hc; discriminate).
  cbn [andb negb]. rewrite andb_false_r.
  unfold connect.
  change (current_readyState (with_reconnectAttempts 0 h))
    with (current_readyState h).
  by rewrite Hc.
Qed.

Lemma connect_settles target h :
  (current_readyState h = Some OPEN \/ current_readyState h = Some CONNECTING ->
   connectedSessionRef h = Some target) ->
  current_readyState h <> Some OPEN ->
  connectedSessionRef (connect target h) = Some target
  /\ current_readyState (connect target h) = Some CONNECTING
  /\ reconnectAttempts (connect target h) = reconnectAttempts h.
Proof.
  intros Hsame Hopen. unfold connect.
  destruct (current_readyState h) as [[]|] eqn:Hst; try done.
  1: by (split; [apply Hsame; auto|]).
  all: unfold current_readyState; cbn; repeat split;
    by rewrite lookup_app_r, Nat.sub_diag by lia.
Qed.

(** After the effect has run for a session, the hook is bound to it and
    either nothing has changed and its socket is open, or its socket is
    connecting and the attempt counter is 0. *)
Lemma effect_settles target h :
  target <> "" ->
  let h' := effect (Some target) true h in
  connectedSessionRef h' = Some target
  /\ ((h' = h /\ current_readyState h = Some OPEN)
      \/ (current_readyState h' = Some CONNECTING /\ reconnectAttempts h' = 0)).
Proof.
  intros Hne h'. subst h'.
  destruct (decide (connectedSessionRef h = Some target)) as [Hb|Hb].
  - destruct (decide (current_readyState h = Some OPEN)) as [Ho|Ho].
    { rewrite effect_when_open by done. split; [done|]. by left. }
    unfold effect. cbn [truthy]. rewrite (eqb_unknown _ _ Hne).
    rewrite (bool_decide_eq_true_2 _ Hb), (bool_decide_eq_false_2 _ Ho).
    cbn [andb negb]. rewrite andb_false_r.
    destruct (connect_settles target (with_reconnectAttempts 0 h))
      as (H1 & H2 & H3); [done..|].
    split; [done|]. right. by split.
  - unfold effect. cbn [truthy]. rewrite (eqb_unknown _ _ Hne).
    rewrite (bool_decide_eq_false_2 _ Hb). cbn [andb negb].
    rewrite andb_true_r.
    destruct (wsRef h) as [cur|] eqn:Hws.
    + rewrite bool_decide_eq_true_2 by done.
      match goal with |- context [connect target ?st] =>
        destruct (connect_settles target st) as (H1 & H2 & H3)
      end; try (intros [Hc|Hc]; discriminate Hc); try discriminate.
      split; [done|]. right. by split.
    + rewrite bool_decide_eq_false_2 by (intros Hn; by apply Hn).
      destruct (connect_settles target (with_reconnectAttempts 0 h))
        as (H1 & H2 & H3).
      * unfold current_readyState. cbn. rewrite Hws.
        intros [Hc|Hc]; discriminate Hc.
      * unfold current_readyState. cbn. by rewrite Hws.
      * split; [done|]. right. by split.
Qed.

(** X19: the session-switch effect is idempotent: run a second time with
    the same session id and the same flag, it changes nothing, makes no
    call on the transport and writes nothing to the console. *)
Theorem effect_is_idempotent (sessionId : option string) (shouldConnect : bool)
    (h : Hook) :
  effect sessionId shouldConnect (effect sessionId shouldConnect h)
  = effect sessionId shouldConnect h.
Proof.
  destruct (truthy sessionId) as [target|] eqn:Htruthy.
  - assert (Hid : sessionId = Some target /\ target <> "").
    { destruct sessionId as [x|]; [|done]. cbn in Htruthy.
      destruct (String.eqb_spec x ""); [done|]. by injection Htruthy as <-. }
    destruct Hid as [-> Hne]. destruct shouldConnect.
    + destruct (effect_settles target h Hne) as (Hb & [[Heq Ho]|[Hc Ha]]).
      * rewrite Heq. by rewrite Heq in Hb |- *.
      * rewrite (effect_when_connecting target _ Hne Hb Hc).
        rewrite <- Ha at 1. apply with_reconnectAttempts_same.
    + rewrite !effect_cleanup.
      destruct (wsRef h) as [cur|] eqn:Hws.
      * rewrite !(bool_decide_eq_true_2 (Some cur <> None)) by done.
        reflexivity.
      * rewrite !(bool_decide_eq_false_2 (@None nat <> None))
          by (intros Hn; by apply Hn).
        cbn. by rewrite Hws.
  - assert (Hclean : forall st, effect sessionId shouldConnect st
                                = effect sessionId false st).
    { intros st. unfold effect. by rewrite Htruthy. }
    rewrite !Hclean, !effect_cleanup.
    destruct (wsRef h) as [cur|] eqn:Hws.
    + rewrite !(bool_decide_eq_true_2 (Some cur <> None)) by done.
      reflexivity.
    + rewrite !(bool_decide_eq_false_2 (@None nat <> None))
        by (intros Hn; by apply Hn).
      cbn. by rewrite Hws.
Qed.

(** * Loading a session of the history *)

Lemma startGeneration_appends (s : ReasoningState) (l : list (option Iteration)) :
  iterations s = JsArray.mk l [] ->
  JsArray.is_index (Z.of_nat (length l)) = true ->
  iterations (startGeneration (Z.of_nat (length l)) s)
  = JsArray.mk
      (l ++ [Some {| number := Z.of_nat (length l);
                     generation := "";
                     generation_model :=
                       generator (getRotatedModels (config s) (Z.of_nat (length l)));
                     critique := None;
                     critique_model :=
                       critic (getRotatedModels (config s) (Z.of_nat (length l)));
                     isGenerating := true;
                     isCritiquing := false |}]) [].
Proof.
  intros Hs Hi. unfold startGeneration. cbn. rewrite Hs.
  unfold JsArray.get, JsArray.set, JsArray.spread. cbn. rewrite Hi.
  rewrite Nat2Z.id, (lookup_ge_None_2 l (length l)) by lia.
  unfold JsArray.write. destruct (Nat.ltb_spec (length l) (length l)); [lia|].
  by rewrite Nat.sub_diag.
Qed.

Lemma update_last (l : list (option Iteration)) (it : Iteration) f :
  JsArray.is_index (Z.of_nat (length l)) = true ->
  update_at (Z.of_nat (length l)) f (JsArray.spread (JsArray.mk (l ++ [Some it]) []))
  = JsArray.mk (l ++ [Some (f it)]) [].
Proof.
  intros Hi. unfold update_at, JsArray.get, JsArray.set, JsArray.spread. cbn.
  rewrite Hi, Nat2Z.id.
  rewrite lookup_app_r by lia. rewrite Nat.sub_diag. cbn.
  unfold JsArray.write. rewrite length_app. cbn [length].
  destruct (Nat.ltb_spec (length l) (length l + 1)); [|lia].
  rewrite insert_app_r_alt by lia. by rewrite Nat.sub_diag.
Qed.

Lemma load_iteration_appends (s : ReasoningState) (l : list (option Iteration))
    (iter : Loaded.iteration) :
  iterations s = JsArray.mk l [] ->
  JsArray.is_index (Z.of_nat (length l)) = true ->
  iterations (load_iteration (Z.of_nat (length l)) iter s)
  = JsArray.mk (l ++ [Some (loaded_iteration (config s) (Z.of_nat (length l)) iter)]) []
  /\ config (load_iteration (Z.of_nat (length l)) iter s) = config s
  /\ status (load_iteration (Z.of_nat (length l)) iter s) = running.
Proof.
  intros Hs Hi. pose proof (startGeneration_appends s l Hs Hi) as H1.
  unfold load_iteration.
  set (s1 := startGeneration (Z.of_nat (length l)) s) in *.
  assert (H2 : iterations (completeGeneration (or_empty (Loaded.generation iter)) s1)
               = JsArray.mk (l ++ [Some (loaded_iteration (config s)
                                           (Z.of_nat (length l))
                                           {| Loaded.generation := Loaded.generation iter;
                                              Loaded.critique := None |})]) []).
  { destruct (perform_rewrites
                (CompleteGeneration (or_empty (Loaded.generation iter))) _ s1 eq_refl)
      as [E _]. cbn [perform] in E. rewrite E, H1.
    change (currentIteration s1) with (Z.of_nat (length l)).
    by rewrite update_last. }
  set (s2 := completeGeneration (or_empty (Loaded.generation iter)) s1) in *.
  destruct (Loaded.critique iter) as [c|] eqn:Hc.
  - split; [|by split].
    destruct (perform_rewrites (CompleteCritique c) _ s2 eq_refl) as [E _].
    cbn [perform] in E. rewrite E, H2.
    change (currentIteration s2) with (Z.of_nat (length l)).
    rewrite update_last by done. unfold loaded_iteration. cbn. by rewrite Hc.
  - split; [|by split]. rewrite H2. unfold loaded_iteration. cbn. by rewrite Hc.
Qed.

Lemma load_iterations_appends (iters : list Loaded.iteration) (s : ReasoningState)
    (l : list (option Iteration)) :
  iterations s = JsArray.mk l [] ->
  Z.of_nat (length l + length iters) <= 4294967295 ->
  iterations (load_iterations (Z.of_nat (length l)) iters s)
  = JsArray.mk
      (l ++ imap (fun k iter =>
                    Some (loaded_iteration (config s) (Z.of_nat (length l + k)) iter))
                 iters) []
  /\ config (load_iterations (Z.of_nat (length l)) iters s) = config s.
Proof.
  revert s l. induction iters as [|iter iters IH]; intros s l Hs Hlen.
  - cbn. by rewrite app_nil_r.
  - cbn [load_iterations]. cbn [length] in Hlen.
    destruct (load_iteration_appends s l iter Hs) as (H1 & H2 & _).
    { unfold JsArray.is_index. lia. }
    specialize (IH (load_iteration (Z.of_nat (length l)) iter s)
                  (l ++ [Some (loaded_iteration (config s) (Z.of_nat (length l)) iter)])
                  H1).
    rewrite length_app in IH. cbn [length] in IH.
    replace (Z.of_nat (length l) + 1) with (Z.of_nat (length l + 1)) by lia.
    destruct IH as [IH1 IH2]; [lia|].
    rewrite IH1, IH2, H2. split; [|done]. f_equal.
    rewrite <- app_assoc. f_equal. cbn. rewrite Nat.add_0_r. f_equal.
    apply imap_ext. intros k x _. cbn. do 3 f_equal. lia.
Qed.

Lemma handleLoadSession_loaded id session s :
  sessionId s <> Some id ->
  handleLoadSession id (Some session) s
  = let s5 :=
      setStatus (match Loaded.status session with
                 | Some st => st
                 | None => completed
                 end)
        (setSessionId (Some (Loaded.id session)) false
           (setContext (or_empty (Loaded.context session))
              (setTask (or_empty (Loaded.task session)) (clearIterations s)))) in
    let s6 :=
      match Loaded.iterations session with
      | Some (iter :: rest) => load_iterations 0 (iter :: rest) s5
      | _ => s5
      end in
    match truthy (Loaded.final_output session) with
    | Some output => completeSession output (or_zero (Loaded.final_score session)) s6
    | None => s6
    end.
Proof.
  intros Hne. unfold handleLoadSession. by rewrite (bool_decide_eq_false_2 _ Hne).
Qed.

(** X20: loading a session of the history rebuilds its iterations in
    order: the array has one element per loaded iteration and no other
    entry, the [k]-th with number [k], the loaded text (empty when the
    history has none), the loaded critique, no flag set, and the models
    that the rotation gives for the configuration of the store, which is
    left as it is. *)
Theorem loading_rebuilds_iterations (id : string) (session : Loaded.session)
    (iters : list Loaded.iteration) (s : ReasoningState) :
  sessionId s <> Some id ->
  Loaded.iterations session = Some iters ->
  Z.of_nat (length iters) <= 4294967295 ->
  let s' := handleLoadSession id (Some session) s in
  iterations s'
  = JsArray.mk
      (imap (fun k iter => Some (loaded_iteration (config s) (Z.of_nat k) iter))
            iters) []
  /\ JsArray.length (iterations s') = Z.of_nat (length iters)
  /\ config s' = config s.
Proof.
  intros Hne Hiters Hlen s'. subst s'.
  rewrite (handleLoadSession_loaded id session s Hne), Hiters. cbn zeta.
  set (s5 := setStatus _ _).
  assert (H5 : iterations s5 = JsArray.mk [] [] /\ config s5 = config s) by done.
  destruct H5 as [H5 Hc5].
  assert (H6 : iterations (match iters with
                           | iter :: rest => load_iterations 0 (iter :: rest) s5
                           | [] => s5
                           end)
               = JsArray.mk
                   (imap (fun k iter =>
                            Some (loaded_iteration (config s) (Z.of_nat k) iter))
                         iters) []
               /\ config (match iters with
                          | iter :: rest => load_iterations 0 (iter :: rest) s5
                          | [] => s5
                          end) = config s).
  { destruct iters as [|iter rest]; [done|].
    destruct (load_iterations_appends (iter :: rest) s5 [] H5) as [H1 H2];
      [cbn [length] in *; lia|].
    change (Z.of_nat (length [])) with 0 in H1, H2.
    rewrite H1, H2, Hc5. cbn [app length Nat.add]. done. }
  destruct H6 as [H6 Hc6].
  assert (Hfinal : forall st out sc,
            iterations (completeSession out sc st) = iterations st
            /\ config (completeSession out sc st) = config st) by done.
  destruct (truthy (Loaded.final_output session)) as [out|].
  - destruct (Hfinal (match iters with
                      | iter :: rest => load_iterations 0 (iter :: rest) s5
                      | [] => s5
                      end) out (or_zero (Loaded.final_score session))) as [-> ->].
    rewrite H6, Hc6. unfold JsArray.length. cbn. by rewrite length_imap.
  - rewrite H6, Hc6. unfold JsArray.length. cbn. by rewrite length_imap.
Qed.

Lemma loading_rebuilds_iterations_witness :
  let session :=
    {| Loaded.id := "old"; Loaded.task := Some "t"; Loaded.context := None;
       Loaded.status := Some stopped;
       Loaded.iterations :=
         Some [ {| Loaded.generation := Some "draft";
                   Loaded.critique := Some sample_critique |};
                {| Loaded.generation := None; Loaded.critique := None |} ];
       Loaded.final_output := None; Loaded.final_score := None |} in
  JsArray.length (iterations (handleLoadSession "old" (Some session) initialState))
  = 2.
Proof.
  intros session.
  destruct (loading_rebuilds_iterations "old" session
              [ {| Loaded.generation := Some "draft";
                   Loaded.critique := Some sample_critique |};
                {| Loaded.generation := None; Loaded.critique := None |} ]
              initialState) as (_ & Hl & _).
  - discriminate.
  - reflexivity.
  - cbn. lia.
  - exact Hl.
Defined.

Lemma load_iteration_leaves index iter s :
  sessionId (load_iteration index iter s) = sessionId s
  /\ task (load_iteration index iter s) = task s
  /\ context (load_iteration index iter s) = context s
  /\ needsWebSocket (load_iteration index iter s) = needsWebSocket s
  /\ finalOutput (load_iteration index iter s) = finalOutput s
  /\ finalScore (load_iteration index iter s) = finalScore s
  /\ status (load_iteration index iter s) = running.
Proof. unfold load_iteration. by destruct (Loaded.critique iter). Qed.

Lemma load_iterations_leaves iters index s :
  sessionId (load_iterations index iters s) = sessionId s
  /\ task (load_iterations index iters s) = task s
  /\ context (load_iterations index iters s) = context s
  /\ needsWebSocket (load_iterations index iters s) = needsWebSocket s
  /\ finalOutput (load_iterations index iters s) = finalOutput s
  /\ finalScore (load_iterations index iters s) = finalScore s
  /\ status (load_iterations index iters s)
     = match iters with [] => status s | _ :: _ => running end.
Proof.
  revert index s. induction iters as [|iter iters IH]; intros index s; [done|].
  cbn [load_iterations].
  destruct (IH (index + 1) (load_iteration index iter s))
    as (-> & -> & -> & -> & -> & -> & ->).
  destruct (load_iteration_leaves index iter s)
    as (-> & -> & -> & -> & -> & -> & ->).
  by destruct iters.
Qed.

(** X21: loading a session of the history never asks for a socket, and it
    does not keep the status the history recorded when the session has
    iterations.  The store holds the loaded id, task and context with
    [needsWebSocket] off, so the viewer does not connect; the status is
    [completed] when the session has a final output, else [running] when
    it has at least one iteration, else the recorded status ([completed]
    when there is none).  Nothing is loaded when the session is the one
    already shown or when the request fails. *)
Theorem loading_history_status (id : string) (session : Loaded.session)
    (s : ReasoningState) :
  (sessionId s = Some id ->
   forall response, handleLoadSession id response s = s)
  /\ handleLoadSession id None s = s
  /\ (sessionId s <> Some id ->
      let s' := handleLoadSession id (Some session) s in
      sessionId s' = Some (Loaded.id session)
      /\ task s' = or_empty (Loaded.task session)
      /\ context s' = or_empty (Loaded.context session)
      /\ needsWebSocket s' = false
      /\ shouldConnectWs s' = false
      /\ status s'
         = match truthy (Loaded.final_output session), Loaded.iterations session with
           | Some _, _ => completed
           | None, Some (_ :: _) => running
           | None, _ => match Loaded.status session with
                        | Some st => st
                        | None => completed
                        end
           end
      /\ finalOutput s' = truthy (Loaded.final_output session)
      /\ (finalOutput s' = None -> finalScore s' = None)).
Proof.
  split; [|split].
  - intros Hsame response. unfold handleLoadSession.
    by rewrite (bool_decide_eq_true_2 _ Hsame).
  - unfold handleLoadSession. by case_match.
  - intros Hne s'. subst s'.
    rewrite (handleLoadSession_loaded id session s Hne). cbn zeta.
    set (s5 := setStatus _ _).
    assert (H5 : sessionId s5 = Some (Loaded.id session)
                 /\ task s5 = or_empty (Loaded.task session)
                 /\ context s5 = or_empty (Loaded.context session)
                 /\ needsWebSocket s5 = false
                 /\ finalOutput s5 = None /\ finalScore s5 = None
                 /\ status s5 = match Loaded.status session with
                                | Some st => st
                                | None => completed
                                end) by done.
    destruct H5 as (I1 & I2 & I3 & I4 & I5 & I6 & I7).
    set (s6 := match Loaded.iterations session with
               | Some (iter :: rest) => load_iterations 0 (iter :: rest) s5
               | _ => s5
               end).
    assert (H6 : sessionId s6 = Some (Loaded.id session)
                 /\ task s6 = or_empty (Loaded.task session)
                 /\ context s6 = or_empty (Loaded.context session)
                 /\ needsWebSocket s6 = false
                 /\ finalOutput s6 = None /\ finalScore s6 = None
                 /\ status s6 = match Loaded.iterations session with
                                | Some (_ :: _) => running
                                | _ => match Loaded.status session with
                                       | Some st => st
                                       | None => completed
                                       end
                                end).
    { subst s6. destruct (Loaded.iterations session) as [[|iter rest]|];
        try done.
      destruct (load_iterations_leaves (iter :: rest) 0 s5)
        as (-> & -> & -> & -> & -> & -> & ->). done. }
    destruct H6 as (J1 & J2 & J3 & J4 & J5 & J6 & J7).
    destruct (truthy (Loaded.final_output session)) as [out|]; cbn.
    + unfold shouldConnectWs. cbn. rewrite J4. by repeat split.
    + unfold shouldConnectWs. rewrite J4. by repeat split.
Qed.

Lemma loading_history_status_witness :
  let session :=
    {| Loaded.id := "old"; Loaded.task := Some "t"; Loaded.context := None;
       Loaded.status := Some stopped;
       Loaded.iterations :=
         Some [ {| Loaded.generation := Some "draft"; Loaded.critique := None |} ];
       Loaded.final_output := None; Loaded.final_score := None |} in
  let s' := handleLoadSession "old" (Some session) initialState in
  status s' = running /\ shouldConnectWs s' = false.
Proof.
  intros session s'.
  destruct (loading_history_status "old" session initialState) as (_ & _ & H).
  destruct H as (_ & _ & _ & _ & Hws & Hst & _); [discriminate|].
  by split.
Defined.

(** * The mode selector *)

(** X22: selecting a mode and reading the mode back is a round trip.  When
    the session is not running, the selector then shows the mode that was
    clicked, the configuration has that mode's backend mode and is
    otherwise what it was, and nothing else in the store changes; while the
    session is running a click changes nothing. *)
Theorem mode_selection_round_trip (m : ModeSelector.Mode) (s : ReasoningState) :
  (status s = running -> ModeSelector.handleModeSelect m s = s)
  /\ (status s <> running ->
      let s' := ModeSelector.handleModeSelect m s in
      ModeSelector.currentMode (config s') = m
      /\ generator_model (config s') = generator_model (config s)
      /\ critic_model (config s') = critic_model (config s)
      /\ refiner_model (config s') = refiner_model (config s)
      /\ temperature (config s') = temperature (config s)
      /\ max_tokens (config s') = max_tokens (config s)
      /\ max_iterations (config s') = max_iterations (config s)
      /\ score_threshold (config s') = score_threshold (config s)
      /\ output_length (config s') = output_length (config s)
      /\ s' = assign (K.config (config s')) s).
Proof.
  unfold ModeSelector.handleModeSelect. split.
  - intros Hrun. by rewrite (bool_decide_eq_true_2 _ Hrun).
  - intros Hrun. rewrite (bool_decide_eq_false_2 _ Hrun).
    by destruct m.
Qed.

Lemma mode_selection_round_trip_witness :
  ModeSelector.currentMode
    (config (ModeSelector.handleModeSelect ModeSelector.ultrathink initialState))
  = ModeSelector.ultrathink
  /\ ModeSelector.handleModeSelect ModeSelector.council
       (setStatus running initialState)
     = setStatus running initialState.
Proof.
  destruct (mode_selection_round_trip ModeSelector.ultrathink initialState)
    as [_ H1].
  destruct (mode_selection_round_trip ModeSelector.council
              (setStatus running initialState)) as [H2 _].
  split.
  - by destruct H1 as [H1 _].
  - by apply H2.
Defined.

(** * The phase shown for the session *)

(** X23: the two council phases that depend on a council iteration at rest
    are never shown.  Whatever functions of the store are called, in
    whatever order, the phase computed from the store is neither
    [council_querying] nor [council_reviewing]; and it is
    [council_synthesizing] only while the array is empty and the current
    iteration is the council iteration [-1] that [startGeneration] has
    just opened. *)
Theorem council_phases_shown (cs : list StoreCall) :
  let s := invoke_all cs initialState in
  let phase := getCurrentPhase (status s) (iterations s) in
  phase <> UiPhase.council_querying
  /\ phase <> UiPhase.council_reviewing
  /\ (phase = UiPhase.council_synthesizing ->
      JsArray.length (iterations s) = 0 /\ currentIteration s = -1).
Proof.
  intros s phase.
  destruct (store_inv_invoke_all cs initialState store_inv_initial)
    as [Hnum Hprops].
  fold s in Hnum, Hprops. subst phase. unfold getCurrentPhase.
  destruct (bool_decide (status s = idle)); [by repeat split|].
  destruct (bool_decide (status s = completed)); [by repeat split|].
  destruct (JsArray.get (iterations s) (JsArray.length (iterations s) - 1))
    as [it|] eqn:Hlast; [|by repeat split].
  destruct (Z.eqb_spec (number it) (-1)) as [Hcouncil|Hother].
  - pose proof (Hnum _ _ Hlast) as Hk. rewrite Hcouncil in Hk.
    assert (Hlen : JsArray.length (iterations s) = 0) by lia.
    rewrite Hlen in Hlast. unfold JsArray.get in Hlast. cbn in Hlast.
    destruct (Hprops _ _ Hlast) as (_ & Hcur & ->).
    by repeat split.
  - destruct (isGenerating it); [by repeat split|].
    destruct (isCritiquing it); [by repeat split|].
    by destruct (bool_decide (critique it <> None) && negb false).
Qed.

Lemma council_phases_shown_witness :
  let s := invoke_all [Iter (StartGeneration (-1))] initialState in
  getCurrentPhase (status s) (iterations s) = UiPhase.council_synthesizing
  /\ JsArray.length (iterations s) = 0 /\ currentIteration s = -1.
Proof.
  intros s. split; [reflexivity|].
  destruct (council_phases_shown [Iter (StartGeneration (-1))]) as (_ & _ & H).
  apply H. reflexivity.
Defined.

Lemma newest_started (s : ReasoningState) (i : Z) :
  JsArray.is_index i = true ->
  JsArray.length (iterations s) <= i ->
  let s' := startGeneration i s in
  exists it,
    JsArray.get (iterations s') (currentIteration s') = Some it
    /\ currentIteration s' = JsArray.length (iterations s') - 1
    /\ JsArray.is_index (currentIteration s') = true
    /\ status s' = running
    /\ number it = i /\ isGenerating it = true /\ isCritiquing it = false
    /\ critique it = None.
Proof.
  intros Hi Hlen s'.
  assert (Habs : JsArray.get (JsArray.spread (iterations s)) i = None).
  { unfold JsArray.get, JsArray.spread. rewrite Hi. cbn.
    unfold JsArray.length in Hlen.
    rewrite (proj2 (lookup_ge_None (JsArray.elems (iterations s)) (Z.to_nat i)));
      [done|lia]. }
  pose proof (length_perform (StartGeneration i) s) as Hl.
  cbn [perform] in Hl. rewrite Hi in Hl. fold s' in Hl.
  assert (Hc : currentIteration s' = i) by done.
  assert (Hit : iterations s'
                = JsArray.set (JsArray.spread (iterations s)) i
                    {| number := i; generation := "";
                       generation_model := generator (getRotatedModels (config s) i);
                       critique := None;
                       critique_model := critic (getRotatedModels (config s) i);
                       isGenerating := true; isCritiquing := false |}).
  { subst s'. unfold startGeneration. cbn. by rewrite Habs. }
  eexists. rewrite Hc. split; [rewrite Hit; apply get_set_eq|].
  repeat split; try done. lia.
Qed.

Lemma newest_rewritten (a : Action) f (s : ReasoningState) (it : Iteration) :
  rewrites a = Some f ->
  JsArray.get (iterations s) (currentIteration s) = Some it ->
  currentIteration s = JsArray.length (iterations s) - 1 ->
  JsArray.is_index (currentIteration s) = true ->
  let s' := perform a s in
  JsArray.get (iterations s') (currentIteration s') = Some (f it)
  /\ currentIteration s' = JsArray.length (iterations s') - 1
  /\ JsArray.is_index (currentIteration s') = true
  /\ status s' = status s.
Proof.
  intros Hf Hit Hc Hi s'.
  destruct (perform_rewrites a f s Hf) as [Hiter Hcur]. fold s' in Hiter, Hcur.
  rewrite Hcur, Hiter, length_update_at. repeat split; try done.
  - apply get_update_at_eq. by rewrite get_spread, Hi.
  - subst s'. by destruct a.
Qed.

Lemma phase_of_newest (s : ReasoningState) (it : Iteration) :
  JsArray.get (iterations s) (currentIteration s) = Some it ->
  currentIteration s = JsArray.length (iterations s) - 1 ->
  JsArray.is_index (number it) = true ->
  status s = running ->
  getCurrentPhase (status s) (iterations s)
  = if isGenerating it then UiPhase.generating
    else if isCritiquing it then UiPhase.critiquing
    else if bool_decide (critique it <> None) then UiPhase.refining
    else UiPhase.generating.
Proof.
  intros Hit Hc Hi Hrun. unfold getCurrentPhase.
  rewrite Hrun, <- Hc, Hit. cbn.
  destruct (Z.eqb_spec (number it) (-1)) as [Hm|_].
  - rewrite Hm in Hi. discriminate.
  - destruct (isGenerating it), (isCritiquing it); try done.
    by rewrite andb_true_r.
Qed.

(** X24: the phase shown follows the round of an iteration that is opened
    at or past the end of the array.  After [startGeneration] the phase is
    [generating]; it is still [generating] once the generation is
    complete; [startCritique] makes it [critiquing]; [completeCritique]
    makes it [refining]; and [completeSession] makes it [complete]. *)
Theorem phase_follows_the_round (s : ReasoningState) (i : Z) (content : string)
    (c : CritiqueResult) (output : string) (sc : float) :
  JsArray.is_index i = true ->
  JsArray.length (iterations s) <= i ->
  let phase := fun st => getCurrentPhase (status st) (iterations st) in
  let s1 := startGeneration i s in
  let s2 := completeGeneration content s1 in
  let s3 := startCritique s2 in
  let s4 := completeCritique c s3 in
  let s5 := completeSession output sc s4 in
  phase s1 = UiPhase.generating
  /\ phase s2 = UiPhase.generating
  /\ phase s3 = UiPhase.critiquing
  /\ phase s4 = UiPhase.refining
  /\ phase s5 = UiPhase.complete.
Proof.
  intros Hi Hlen phase s1 s2 s3 s4 s5.
  destruct (newest_started s i Hi Hlen)
    as (it1 & G1 & L1 & I1 & R1 & N1 & Hg & Hc & Hn).
  fold s1 in G1, L1, I1, R1.
  destruct (newest_rewritten (CompleteGeneration content) _ s1 it1 eq_refl G1 L1 I1)
    as (G2 & L2 & I2 & R2).
  change (perform (CompleteGeneration content) s1) with s2 in G2, L2, I2, R2.
  destruct (newest_rewritten StartCritique _ s2 _ eq_refl G2 L2 I2)
    as (G3 & L3 & I3 & R3).
  change (perform StartCritique s2) with s3 in G3, L3, I3, R3.
  destruct (newest_rewritten (CompleteCritique c) _ s3 _ eq_refl G3 L3 I3)
    as (G4 & L4 & I4 & R4).
  change (perform (CompleteCritique c) s3) with s4 in G4, L4, I4, R4.
  rewrite R1 in R2. rewrite R2 in R3. rewrite R3 in R4.
  subst phase. cbn beta.
  rewrite (phase_of_newest s1 _ G1 L1) by (by rewrite ?N1).
  rewrite (phase_of_newest s2 _ G2 L2) by (by cbn; rewrite ?N1).
  rewrite (phase_of_newest s3 _ G3 L3) by (by cbn; rewrite ?N1).
  rewrite (phase_of_newest s4 _ G4 L4) by (by cbn; rewrite ?N1).
  cbn [isGenerating isCritiquing critique with_isGenerating with_generation
       with_isCritiquing with_critique].
  rewrite Hg, Hc, Hn. by repeat split.
Qed.

Lemma phase_follows_the_round_witness :
  getCurrentPhase
    (status (completeCritique sample_critique
               (startCritique (completeGeneration "draft"
                                 (startGeneration 0 initialState)))))
    (iterations (completeCritique sample_critique
                   (startCritique (completeGeneration "draft"
                                     (startGeneration 0 initialState)))))
  = UiPhase.refining.
Proof.
  destruct (phase_follows_the_round initialState 0 "draft" sample_critique
              "final" 9%float) as (_ & _ & _ & H & _);
    [reflexivity|by vm_compute|].
  exact H.
Defined.
